(** * multisurv utilities: clinical-table comparator and offline WSI patcher

    A shallow embedding of [clinical_compare.py] and [src/patcher.py],
    followed by the properties established about them.

    Python values are modelled as follows.
    - [str] is a [string] whose characters are the code points 0..255
      (the Latin-1 range); [str.lower], [in] and [float] are modelled on
      that range exactly as CPython implements them.
    - [float] is an IEEE 754 binary64 number, [spec_float] with precision 53
      and maximal exponent 1024; arithmetic is the correctly rounded
      (nearest-even) arithmetic of [SpecFloat].
    - [int] is [Z].
    - An exception is a value of [exn]; a computation that may raise returns
      [res]. *)

From Stdlib Require Import ZArith NArith String Ascii SpecFloat Lia.
From stdpp Require Import base option list strings gmap.
From Equations Require Import Equations.
From Equations.Prop Require Import Logic.

Local Open Scope Z_scope.

(** ** The Python builtins the two modules rely on *)

Module Py.

(** Exception classes.  [OtherException] stands for any further subclass of
    [Exception], [OtherBaseException] for any further class that derives
    from [BaseException] only (such as [SystemExit]). *)
Inductive exn : Type :=
| ValueError
| TypeError
| IndexError
| KeyError
| AttributeError
| StopIteration
| OtherException (cls : string)
| KeyboardInterrupt
| OtherBaseException (cls : string).

(** [isinstance(e, Exception)] *)
Definition is_Exception (e : exn) : bool :=
  match e with
  | KeyboardInterrupt | OtherBaseException _ => false
  | _ => true
  end.

(** [isinstance(e, IndexError)] *)
Definition is_IndexError (e : exn) : bool :=
  match e with IndexError => true | _ => false end.

(** Outcome of evaluating an expression or a call. *)
Inductive res (A : Type) : Type :=
| Ok (a : A)
| Raise (e : exn).
Arguments Ok {A} a.
Arguments Raise {A} e.

#[export] Instance res_ret : MRet res := fun A a => Ok a.
#[export] Instance res_bind : MBind res := fun A B f m =>
  match m with
  | Ok a => f a
  | Raise e => Raise e
  end.

(** *** Characters and strings *)

Definition ord (c : ascii) : N := N_of_ascii c.

Definition in_range (lo hi : N) (c : ascii) : bool :=
  ((lo <=? ord c) && (ord c <=? hi))%N.

Definition is_digit (c : ascii) : bool := in_range 48 57 c.

(** [str.lower] on one Latin-1 character: A..Z, and the accented capitals
    U+00C0..U+00DE except the multiplication sign U+00D7. *)
Definition lower_char (c : ascii) : ascii :=
  if in_range 65 90 c || (in_range 192 222 c && negb (ord c =? 215)%N)
  then ascii_of_N (ord c + 32)
  else c.

Fixpoint lower (s : string) : string :=
  match s with
  | EmptyString => EmptyString
  | String c s' => String (lower_char c) (lower s')
  end.

(** [s.startswith(p)] *)
Fixpoint startswith (p s : string) : bool :=
  match p, s with
  | EmptyString, _ => true
  | String a p', String b s' => Ascii.eqb a b && startswith p' s'
  | String _ _, EmptyString => false
  end.

(** [sub in s] for two strings: [sub] occurs in [s] at some offset. *)
Fixpoint contains (sub s : string) : bool :=
  startswith sub s ||
  match s with
  | EmptyString => false
  | String _ s' => contains sub s'
  end.

(** *** Floating point *)

Definition float : Type := spec_float.
Definition prec : Z := 53.
Definition emax : Z := 1024.

Definition float_sub : float -> float -> float := SFsub prec emax.
Definition float_abs : float -> float := SFabs.
Definition float_lt : float -> float -> bool := SFltb.

(** [math.isfinite(x)] *)
Definition isfinite (x : float) : bool :=
  match x with
  | S754_zero _ | S754_finite _ _ _ => true
  | S754_infinity _ | S754_nan => false
  end.

(** The double nearest to [(-1)^neg * m * 10^e] (ties to even; overflow
    gives an infinity, underflow a subnormal or a signed zero). *)
Definition decimal_to_float (neg : bool) (m e : Z) : float :=
  match m with
  | Zpos p =>
      if 0 <=? e
      then binary_normalize prec emax (cond_Zopp neg (Zpos p * 10 ^ e)) 0 neg
      else SFdiv prec emax (S754_finite neg p 0)
                           (S754_finite false (Z.to_pos (10 ^ (- e))) 0)
  | _ => S754_zero neg
  end.

(** **** [float(str)]

    CPython's [PyFloat_FromString]: non-ASCII white space is mapped to a
    blank, underscores between digits are dropped, surrounding white space
    is stripped, and what remains must be a decimal numeral, an infinity or
    a NaN in its entirety. *)

(** [Py_ISSPACE]: the six ASCII white-space characters. *)
Definition Py_ISSPACE (c : ascii) : bool :=
  in_range 9 13 c || (ord c =? 32)%N.

(** [Py_UNICODE_ISSPACE] on 0..255. *)
Definition Py_UNICODE_ISSPACE (c : ascii) : bool :=
  in_range 9 13 c || in_range 28 32 c || (ord c =? 133)%N || (ord c =? 160)%N.

Fixpoint transform_loop (s : list ascii) : list ascii :=
  match s with
  | [] => []
  | c :: s' =>
      if (ord c <? 127)%N then c :: transform_loop s'
      else if Py_UNICODE_ISSPACE c then " "%char :: transform_loop s'
      else ["?"%char]   (* no decimal digit lies in 127..255 *)
  end.

Definition TransformDecimalAndSpaceToASCII (s : list ascii) : list ascii :=
  if forallb (fun c => (ord c <? 128)%N) s then s else transform_loop s.

(** The body of [_Py_string_to_number_with_underscores] once an underscore
    is known to be present; [prev] is the previous character. *)
Fixpoint drop_underscores (prev : ascii) (s : list ascii) : option (list ascii) :=
  match s with
  | [] => if Ascii.eqb prev "_" then None else Some []
  | c :: s' =>
      if Ascii.eqb c "_" then
        if is_digit prev then drop_underscores c s' else None
      else if Ascii.eqb prev "_" && negb (is_digit c) then None
      else cons c <$> drop_underscores c s'
  end.

Fixpoint lstrip (s : list ascii) : list ascii :=
  match s with
  | c :: s' => if Py_ISSPACE c then lstrip s' else s
  | [] => []
  end.

Definition rstrip (s : list ascii) : list ascii := rev (lstrip (rev s)).

(** Longest prefix of decimal digits, and the rest. *)
Fixpoint span_digits (s : list ascii) : list ascii * list ascii :=
  match s with
  | c :: s' =>
      if is_digit c then let '(d, r) := span_digits s' in (c :: d, r)
      else ([], s)
  | [] => ([], [])
  end.

Definition digits_value (d : list ascii) : Z :=
  fold_left (fun acc c => 10 * acc + (Z.of_N (ord c) - 48)) d 0.

Definition take_sign (s : list ascii) : bool * list ascii :=
  match s with
  | "-"%char :: s' => (true, s')
  | "+"%char :: s' => (false, s')
  | _ => (false, s)
  end.

(** The exponent part: nothing, or [e]/[E], an optional sign and at least
    one digit, up to the end of the input. *)
Definition parse_exponent (s : list ascii) : option Z :=
  match s with
  | [] => Some 0
  | c :: s' =>
      if Ascii.eqb c "e" || Ascii.eqb c "E" then
        let '(neg, s'') := take_sign s' in
        match span_digits s'' with
        | ((_ :: _) as d, []) => Some (cond_Zopp neg (digits_value d))
        | _ => None
        end
      else None
  end.

(** [_Py_dg_strtod] on the whole input (the sign has been read). *)
Definition parse_decimal (neg : bool) (s : list ascii) : option float :=
  let '(ip, r) := span_digits s in
  let '(fp, r) :=
    match r with
    | "."%char :: r' => span_digits r'
    | _ => ([], r)
    end in
  match ip ++ fp with
  | [] => None
  | _ :: _ =>
      e ← parse_exponent r;
      Some (decimal_to_float neg (digits_value (ip ++ fp))
              (e - Z.of_nat (length fp)))
  end.

(** [_Py_parse_inf_or_nan] on the whole input (the sign has been read). *)
Definition parse_inf_or_nan (neg : bool) (s : list ascii) : option float :=
  let w := lower (string_of_list_ascii s) in
  if String.eqb w "inf" || String.eqb w "infinity" then Some (S754_infinity neg)
  else if String.eqb w "nan" then Some S754_nan
  else None.

Definition float_from_string_inner (s : list ascii) : res float :=
  let '(neg, body) := take_sign (rstrip (lstrip s)) in
  match parse_decimal neg body with
  | Some x => Ok x
  | None =>
      match parse_inf_or_nan neg body with
      | Some x => Ok x
      | None => Raise ValueError
      end
  end.

Definition float_of_str (s : string) : res float :=
  let u := TransformDecimalAndSpaceToASCII (list_ascii_of_string s) in
  if existsb (Ascii.eqb "_") u then
    match drop_underscores "000" u with
    | Some d => float_from_string_inner d
    | None => Raise ValueError
    end
  else float_from_string_inner u.

(** The format of [uuid.UUID.hex]: 32 lower-case hexadecimal digits. *)
Definition is_hexdigit (c : ascii) : bool := in_range 48 57 c || in_range 97 102 c.

Definition is_hex (s : string) : bool :=
  forallb is_hexdigit (list_ascii_of_string s).

Definition is_uuid_hex (s : string) : bool :=
  (String.length s =? 32)%nat && is_hex s.

(** The literal [1e-6]. *)
Definition float_1e_6 : float := Eval vm_compute in decimal_to_float false 1 (-6).

End Py.
Import Py.

(** ** clinical_compare.py *)

Module clinical_compare.

(** The [try] block of [values_are_equivalent]: [Ok (Some b)] when it
    executes [return b], [Ok None] when control reaches its end. *)
Definition numeric_comparison (val1 val2 : string) : res (option bool) :=
  num1 ← float_of_str val1;
  num2 ← float_of_str val2;
  if float_lt (float_abs (float_sub num1 num2)) float_1e_6
  then Ok (Some true)
  else Ok None.

(** The clause [except (ValueError, TypeError)]. *)
Definition caught (e : exn) : bool :=
  match e with ValueError | TypeError => true | _ => false end.

Definition values_are_equivalent (val1 val2 : string) : res bool :=
  if String.eqb val1 val2 then Ok true
  else if String.eqb (lower val1) (lower val2) then Ok true
  else
    let string_containment :=
      let val1_lower := lower val1 in
      let val2_lower := lower val2 in
      if contains val1_lower val2_lower || contains val2_lower val1_lower
      then Ok true
      else Ok false in
    match numeric_comparison val1 val2 with
    | Ok (Some b) => Ok b
    | Ok None => string_containment
    | Raise e => if caught e then string_containment else Raise e
    end.

(** A table cell as [compare_tsv_tables] sees it: a string, or the
    missing-value marker for which [pd.notna] is false. *)
Inductive cell : Type :=
| Str (s : string)
| NaN.

(** [str(row[col]) if pd.notna(row[col]) else ''] *)
Definition cell_value (c : cell) : string :=
  match c with
  | Str s => s
  | NaN => ""
  end.

Record col_diff : Type := {
  column : string;
  table1_value : string;
  table2_value : string
}.

(** The loop over [columns_to_compare] for one pair of rows; its result is
    the list [row_differences]. *)
Fixpoint row_differences (columns_to_compare : list string)
    (row1 row2 : gmap string cell) : res (list col_diff) :=
  match columns_to_compare with
  | [] => Ok []
  | col :: cols =>
      match row1 !! col, row2 !! col with
      | Some c1, Some c2 =>
          let val1 := cell_value c1 in
          let val2 := cell_value c2 in
          eq ← values_are_equivalent val1 val2;
          rest ← row_differences cols row1 row2;
          Ok (if negb eq
              then {| column := col; table1_value := val1; table2_value := val2 |} :: rest
              else rest)
      | _, _ => Raise KeyError
      end
  end.

(** [[col for col in df1.columns if col in df2.columns and col != 'group']] *)
Definition columns_to_compare (columns1 columns2 : list string) : list string :=
  filter (fun col => col ∈ columns2 ∧ col ≠ "group"%string) columns1.

End clinical_compare.
Import clinical_compare.

(** ** The modules [os.path] (POSIX flavour) used by the patcher *)

Module os_path.

Local Open Scope string_scope.

(** [s.rfind(c)] for a one-character [c]: the last index of [c], or -1. *)
Fixpoint rfind_from (c : ascii) (s : string) (i last : Z) : Z :=
  match s with
  | EmptyString => last
  | String a s' => rfind_from c s' (i + 1) (if Ascii.eqb a c then i else last)
  end.

Definition rfind (c : ascii) (s : string) : Z := rfind_from c s 0 (-1).

(** [s[i:]] and [s[:i]] for [0 <= i]. *)
Definition str_from (i : Z) (s : string) : string :=
  string_of_list_ascii (drop (Z.to_nat i) (list_ascii_of_string s)).

Definition str_to (i : Z) (s : string) : string :=
  string_of_list_ascii (take (Z.to_nat i) (list_ascii_of_string s)).

Definition basename (p : string) : string :=
  let i := rfind "/" p + 1 in
  str_from i p.

(** The [while] loop of [genericpath._splitext] over the characters
    between the last separator and the last dot: it answers at the first
    character that is not a dot. *)
Fixpoint has_stem (between : list ascii) : bool :=
  match between with
  | [] => false
  | c :: rest => if negb (Ascii.eqb c ".") then true else has_stem rest
  end.

Definition splitext (p : string) : string * string :=
  let sepIndex := rfind "/" p in
  let dotIndex := rfind "." p in
  if (sepIndex <? dotIndex)%Z
     && has_stem (list_ascii_of_string (str_from (sepIndex + 1) (str_to dotIndex p)))
  then (str_to dotIndex p, str_from dotIndex p)
  else (p, "").

Definition endswith_sep (p : string) : bool :=
  match rev (list_ascii_of_string p) with
  | c :: _ => Ascii.eqb c "/"
  | [] => false
  end.

(** [os.path.join(a, b)] *)
Definition join (a b : string) : string :=
  if startswith "/" b then b
  else if String.eqb a "" || endswith_sep a then a ++ b
  else a ++ "/" ++ b.

End os_path.

(** ** src/patcher.py *)

(** An element of [slide_files]: a path, or a pair of a slide path and an
    annotation path. *)
Inductive slide_entry : Type :=
| SlidePath (p : string)
| SlidePair (wsi_file xml_file : string).

(** What opening a slide with annotations and drawing a patch from it
    ([slide.Slide(wsi, xml, 'asap')], [wsi.labels], [wsi.read_random_patch])
    can do. *)
Inductive annotated_draw (Image Annotation : Type) : Type :=
| AnnotatedError (e : exn)
| NoLabels
| AnnotatedPatch (patch : Image) (annotation : Annotation).
Arguments AnnotatedError {Image Annotation} e.
Arguments NoLabels {Image Annotation}.
Arguments AnnotatedPatch {Image Annotation} patch annotation.

(** What opening a slide and drawing a tissue patch from it
    ([slide.Slide(wsi)], [wsi.read_random_tissue_patch]) can do. *)
Inductive tissue_draw (Image : Type) : Type :=
| TissueError (e : exn)
| TissueNone
| TissuePatch (patch : Image).
Arguments TissueError {Image} e.
Arguments TissueNone {Image}.
Arguments TissuePatch {Image} patch.

(** The libraries outside the repository.  Every call into them is answered
    by a function of the number of such calls made so far ([tick]) and of the
    call's arguments, so that random draws, I/O failures and interrupts are
    all covered by quantifying over the environment. *)
Class Environment : Type := {
  Image : Type;
  Annotation : Type;
  read_random_patch :
    nat -> string -> string -> Z -> Z * Z -> annotated_draw Image Annotation;
  read_random_tissue_patch : nat -> string -> Z -> Z * Z -> tissue_draw Image;
  (** [patch == s] for a string [s] *)
  image_eq_str : Image -> string -> bool;
  (** [patch.save(path)]: the exception raised, if any *)
  image_save : nat -> Image -> string -> option exn;
  (** [uuid.uuid4().hex] *)
  uuid4_hex : nat -> string
}.

(** The part of the world the patcher acts on. *)
Record World `{Environment} : Type := {
  tick : nat;                       (* calls into the libraries so far *)
  dirs : gset string;               (* existing directories *)
  opened : list string;             (* slides opened, oldest first *)
  saved : list (string * Image)     (* images written, oldest first *)
}.

(** [l[i]] for a Python list, negative indices counting from the end. *)
Definition getitem {A : Type} (l : list A) (i : Z) : res A :=
  let len := Z.of_nat (length l) in
  let j := if i <? 0 then i + len else i in
  if (j <? 0) || (len <=? j) then Raise IndexError
  else match l !! Z.to_nat j with
       | Some x => Ok x
       | None => Raise IndexError
       end.

Module PatchGenerator.
Section PatchGenerator.
Context `{Environment}.

Record t : Type := {
  slide_files : list slide_entry;
  slide_level : Z;
  random_tissue_patch : bool;
  patch_size : Z * Z;
  return_annotation : bool;
  i : Z;
  n : Z
}.

Definition set_i (v : Z) (self : t) : t :=
  {| slide_files := slide_files self; slide_level := slide_level self;
     random_tissue_patch := random_tissue_patch self;
     patch_size := patch_size self;
     return_annotation := return_annotation self; i := v; n := n self |}.

Definition set_n (v : Z) (self : t) : t :=
  {| slide_files := slide_files self; slide_level := slide_level self;
     random_tissue_patch := random_tissue_patch self;
     patch_size := patch_size self;
     return_annotation := return_annotation self; i := i self; n := v |}.

(** What [_get_random_patch] and [_get_random_tissue_patch] return: the
    string ['No tumor annotations found.'], a pair (patch, file name) or a
    triple (patch, annotation, file name). *)
Inductive result : Type :=
| NoTumorAnnotations
| PatchName (patch : Image) (name : string)
| PatchAnnotationName (patch : Image) (annotation : Annotation) (name : string).

Definition reset (self : t) : t := set_i 0 self.

Definition __init__ (slide_files : list slide_entry) (slide_level : Z)
    (random_tissue_patch : bool) (patch_size : Z * Z)
    (return_annotation : bool) : t :=
  let self :=
    {| slide_files := slide_files; slide_level := slide_level;
       random_tissue_patch := random_tissue_patch; patch_size := patch_size;
       return_annotation := return_annotation; i := 0; n := 0 |} in
  let self := reset self in
  set_n (Z.of_nat (length slide_files)) self.

(** One call into the slide library: the clock advances and the slide is
    recorded as opened. *)
Definition open_slide (wsi_file : string) (w : World) : World :=
  {| tick := S (tick w); dirs := dirs w;
     opened := opened w ++ [wsi_file]; saved := saved w |}.

(** [wsi_file, xml_file = selected_slide] *)
Definition unpack_slide (selected_slide : slide_entry) : res (string * string) :=
  match selected_slide with
  | SlidePair wsi_file xml_file => Ok (wsi_file, xml_file)
  | SlidePath (String a (String b EmptyString)) =>
      Ok (String a EmptyString, String b EmptyString)
  | SlidePath _ => Raise ValueError
  end.

Definition _get_random_patch (self : t) (selected_slide : slide_entry)
    (w : World) : res result * World :=
  match unpack_slide selected_slide with
  | Raise e => (Raise e, w)
  | Ok (wsi_file, xml_file) =>
      let w' := open_slide wsi_file w in
      match read_random_patch (tick w) wsi_file xml_file
              (slide_level self) (patch_size self) with
      | AnnotatedError e => (Raise e, w')
      | NoLabels => (Ok NoTumorAnnotations, w')
      | AnnotatedPatch patch annotation =>
          if return_annotation self
          then (Ok (PatchAnnotationName patch annotation
                      (os_path.basename wsi_file)), w')
          else (Ok (PatchName patch (os_path.basename wsi_file)), w')
      end
  end.

Definition _get_random_tissue_patch (self : t) (selected_slide : slide_entry)
    (w : World) : res result * World :=
  let wsi_file :=
    match selected_slide with
    | SlidePair wsi_file _ => wsi_file
    | SlidePath wsi_file => wsi_file
    end in
  let w' := open_slide wsi_file w in
  match read_random_tissue_patch (tick w) wsi_file
          (slide_level self) (patch_size self) with
  | TissueError e => (Raise e, w')
  | TissueNone => (Raise IndexError, w')
  | TissuePatch patch => (Ok (PatchName patch (os_path.basename wsi_file)), w')
  end.

(** [isinstance(result, tuple) and result[0] == 'No valid tissue pixels found.'] *)
Definition is_invalid (r : result) : bool :=
  match r with
  | NoTumorAnnotations => false
  | PatchName patch _ | PatchAnnotationName patch _ _ =>
      image_eq_str patch "No valid tissue pixels found."
  end.

(** The first statement of the [try] block: the slide under the cursor is
    looked up and a patch is drawn from it. *)
Definition fetch (self : t) (w : World) : res result * World :=
  match getitem (slide_files self) (i self) with
  | Raise e => (Raise e, w)
  | Ok selected_slide =>
      if random_tissue_patch self
      then _get_random_tissue_patch self selected_slide w
      else _get_random_patch self selected_slide w
  end.

(** One pass through the body of the [while] loop: [Some r] when the pass
    leaves [__next__] (by [return] or by an exception that no clause
    handles), [None] when the loop goes round again. *)
Definition loop_body (self : t) (w : World) : option (res result) * t * World :=
  match fetch self w with
  | (Ok r, w') =>
      let self := set_i (i self + 1) self in
      if is_invalid r then (None, self, w')
      else (Some (Ok r), self, w')
  | (Raise e, w') =>
      if is_IndexError e then (None, set_i (i self + 1) self, w')
      else if is_Exception e then (None, set_i (i self + 1) self, w')
      else (Some (Raise e), self, w')
  end.

Equations? __next__ (self : t) (w : World) : res result * t * World
  by wf (Z.to_nat (n self - i self)) lt :=
__next__ self w with inspect (i self <? n self) := {
  | exist _ true Hlt with inspect (loop_body self w) := {
      | exist _ (Some r, self', w') Hbody => (r, self', w');
      | exist _ (None, self', w') Hbody => __next__ self' w' };
  | exist _ false Hlt => (Raise StopIteration, reset self, w) }.
Proof.
  apply Z.ltb_lt in Hlt.
  enough (i self' = i self + 1 /\ n self' = n self) by lia.
  revert Hbody. unfold loop_body.
  destruct (fetch self w) as [[r|e] w1].
  - destruct (is_invalid r); inversion 1; auto.
  - destruct (is_IndexError e); [inversion 1; auto|].
    destruct (is_Exception e); inversion 1; auto.
Qed.

(** A fetch that yields no patch: it raised an error, or what it returned
    is recognised as invalid. *)
Definition no_patch (r : res result) : Prop :=
  match r with
  | Raise e => is_Exception e = true
  | Ok r => is_invalid r = true
  end.

(** [skipped self j w w']: from world [w], every slide from position [j] to
    the last one is fetched in turn and none yields a patch, which leaves
    the world [w']. *)
Inductive skipped (self : t) : Z -> World -> World -> Prop :=
| skipped_end (j : Z) (w : World) :
    n self <= j -> skipped self j w w
| skipped_step (j : Z) (w w1 w' : World) (r : res result) :
    j < n self ->
    fetch (set_i j self) w = (r, w1) ->
    no_patch r ->
    skipped self (j + 1) w1 w' ->
    skipped self j w w'.

End PatchGenerator.
End PatchGenerator.

Module OfflinePatcher.
Section OfflinePatcher.
Context `{Environment}.

Local Open Scope string_scope.

Record t : Type := {
  slide_files : list slide_entry;
  target_dir : string;
  patch_size : Z * Z;
  slide_level : Z;
  file_format : string;
  filename : option string;       (* [None] until a patch has been drawn *)
  patch_gen : PatchGenerator.t;
  patch : option Image            (* unset until a patch has been drawn *)
}.

Definition set_patch_filename (p : option Image) (f : option string) (self : t) : t :=
  {| slide_files := slide_files self; target_dir := target_dir self;
     patch_size := patch_size self; slide_level := slide_level self;
     file_format := file_format self; filename := f;
     patch_gen := patch_gen self; patch := p |}.

Definition set_patch_gen (g : PatchGenerator.t) (self : t) : t :=
  {| slide_files := slide_files self; target_dir := target_dir self;
     patch_size := patch_size self; slide_level := slide_level self;
     file_format := file_format self; filename := filename self;
     patch_gen := g; patch := patch self |}.

(** [os.path.isdir] and [os.makedirs] on the modelled file system. *)
Definition isdir (d : string) (w : World) : bool := bool_decide (d ∈ dirs w).

Definition makedirs (d : string) (w : World) : World :=
  {| tick := tick w; dirs := {[ d ]} ∪ dirs w;
     opened := opened w; saved := saved w |}.

Definition __init__ (slide_files : list slide_entry) (target_dir : string)
    (patch_size : Z * Z) (slide_level : Z) (get_random_tissue_patch : bool)
    (w : World) : t * World :=
  let self :=
    {| slide_files := slide_files; target_dir := target_dir;
       patch_size := patch_size; slide_level := slide_level;
       file_format := "png"; filename := None;
       patch_gen :=
         PatchGenerator.__init__ slide_files slide_level
           get_random_tissue_patch patch_size false;
       patch := None |} in
  if negb (isdir target_dir w)
  then (self, makedirs target_dir w)
  else (self, w).

Definition next_tick (w : World) : World :=
  {| tick := S (tick w); dirs := dirs w; opened := opened w; saved := saved w |}.

Definition _compose_path (self : t) (w : World) : res string * World :=
  let unique_id := os_path.str_to 5 (uuid4_hex (tick w)) in
  let w := next_tick w in
  match filename self with
  | None => (Raise TypeError, w)
  | Some filename =>
      let slide_file_name := fst (os_path.splitext filename) in
      let slide_file_name := fst (os_path.splitext slide_file_name) in
      let unique_name := slide_file_name ++ "_" ++ unique_id in
      let unique_name := unique_name ++ "." ++ lower (file_format self) in
      let path := os_path.join (target_dir self) unique_name in
      (Ok path, w)
  end.

Definition _save (self : t) (path : string) (w : World) : res unit * World :=
  match patch self with
  | None => (Raise AttributeError, w)
  | Some p =>
      match image_save (tick w) p path with
      | Some e => (Raise e, next_tick w)
      | None =>
          (Ok tt,
           {| tick := S (tick w); dirs := dirs w; opened := opened w;
              saved := saved w ++ [(path, p)] |})
      end
  end.

(** [file_path = self._compose_path(); self._save(file_path)] *)
Definition compose_and_save (self : t) (w : World) : res unit * World :=
  match _compose_path self w with
  | (Raise e, w) => (Raise e, w)
  | (Ok file_path, w) => _save self file_path w
  end.

(** [a, b = value] for what the generator hands out. *)
Definition unpack_result (r : PatchGenerator.result) : res (Image * string) :=
  match r with
  | PatchGenerator.PatchName p name => Ok (p, name)
  | _ => Raise ValueError
  end.

Definition _make_patch (self : t) (w : World) : res unit * t * World :=
  match PatchGenerator.__next__ (patch_gen self) w with
  | (Raise e, g, w) => (Raise e, set_patch_gen g self, w)
  | (Ok r, g, w) =>
      let self := set_patch_gen g self in
      match unpack_result r with
      | Raise e => (Raise e, self, w)
      | Ok (p, name) =>
          let self := set_patch_filename (Some p) (Some name) self in
          let '(r, w) := compose_and_save self w in
          (r, self, w)
      end
  end.

(** [os.path.basename(slide_file)] on an element of [slide_files]:
    [os.fspath] rejects a tuple. *)
Definition basename_of_entry (slide_file : slide_entry) : res string :=
  match slide_file with
  | SlidePath p => Ok (os_path.basename p)
  | SlidePair _ _ => Raise TypeError
  end.

(** The body of the inner [try] of [run]. *)
Definition draw_and_save (slide_file : slide_entry) (self : t) (w : World)
    : res unit * t * World :=
  let g := patch_gen self in
  let '(r, w) :=
    if PatchGenerator.random_tissue_patch g
    then PatchGenerator._get_random_tissue_patch g slide_file w
    else PatchGenerator._get_random_patch g slide_file w in
  match r ≫= unpack_result with
  | Raise e => (Raise e, self, w)
  | Ok (p, name) =>
      (* [patch, self.filename = ...] and then [self.patch = patch] *)
      let self := set_patch_filename (Some p) (Some name) self in
      let '(r, w) := compose_and_save self w in
      (r, self, w)
  end.

(** [for i in range(n)] with [k] passes left.  The first component is the
    exception that leaves the loop unhandled, if any. *)
Fixpoint draws (k : nat) (slide_file : slide_entry) (self : t) (w : World)
    : option exn * t * World :=
  match k with
  | O => (None, self, w)
  | S k' =>
      match draw_and_save slide_file self w with
      | (Ok _, self, w) => draws k' slide_file self w
      | (Raise e, self, w) =>
          if is_Exception e then (None, self, w)   (* [break] *)
          else (Some e, self, w)
      end
  end.

(** [for slide_file in self.slide_files] *)
Fixpoint slides_loop (slides : list slide_entry) (n : Z) (self : t) (w : World)
    : option exn * t * World :=
  match slides with
  | [] => (None, self, w)
  | slide_file :: rest =>
      match basename_of_entry slide_file with
      | Raise e => (Some e, self, w)
      | Ok _ =>
          match draws (Z.to_nat n) slide_file self w with
          | (None, self, w) => slides_loop rest n self w
          | (Some e, self, w) => (Some e, self, w)
          end
      end
  end.

Definition run (self : t) (n : Z) (w : World) : res unit * t * World :=
  match slides_loop (slide_files self) n self w with
  | (None, self, w) => (Ok tt, self, w)
  | (Some KeyboardInterrupt, self, w) =>
      let '(r, w) := compose_and_save self w in
      (r, self, w)
  | (Some e, self, w) => (Raise e, self, w)
  end.

End OfflinePatcher.
End OfflinePatcher.

(** ** Vocabulary for the patcher's properties *)

Section PatcherVocabulary.
Context `{Environment}.

Local Open Scope string_scope.

(** [skipped_until self j k w w']: from world [w], the slides at positions
    [j], ..., [k - 1] are fetched in turn and none yields a patch, which
    leaves the world [w']. *)
Inductive skipped_until (self : PatchGenerator.t) : Z -> Z -> World -> World -> Prop :=
| skipped_until_here (j : Z) (w : World) :
    skipped_until self j j w w
| skipped_until_step (j k : Z) (w w1 w' : World) (r : res PatchGenerator.result) :
    j < k ->
    PatchGenerator.fetch (PatchGenerator.set_i j self) w = (r, w1) ->
    PatchGenerator.no_patch r ->
    skipped_until self (j + 1) k w1 w' ->
    skipped_until self j k w w'.

(** The value [_compose_path] computes, as a function of what it reads. *)
Definition composed_path (target_dir file_format filename uuid : string) : string :=
  os_path.join target_dir
    (fst (os_path.splitext (fst (os_path.splitext filename)))
     ++ "_" ++ os_path.str_to 5 uuid ++ "." ++ lower file_format).

(** The attributes of an [OfflinePatcher] that [__init__] sets for good. *)
Definition config (self : OfflinePatcher.t)
    : list slide_entry * string * (Z * Z) * Z * string * PatchGenerator.t :=
  (OfflinePatcher.slide_files self, OfflinePatcher.target_dir self,
   OfflinePatcher.patch_size self, OfflinePatcher.slide_level self,
   OfflinePatcher.file_format self, OfflinePatcher.patch_gen self).

(** An entry of [saved] whose path was made by [_compose_path] for the
    given directory and format. *)
Definition composed_entry (target_dir file_format : string)
    (entry : string * Image) : Prop :=
  exists (filename : string) (k : nat),
    fst entry = composed_path target_dir file_format filename (uuid4_hex k).

(** The slide that an element of [slide_files] stands for when a patch is
    drawn from it: the path itself, or the first component of a (slide,
    annotation) pair.  Without [random_tissue_patch] the element is unpacked
    by [wsi_file, xml_file = selected_slide], which splits a path of two
    characters and fails on every other path. *)
Definition wsi_file_of (random_tissue_patch : bool) (slide_file : slide_entry)
    : option string :=
  match slide_file with
  | SlidePair wsi_file _ => Some wsi_file
  | SlidePath p =>
      if random_tissue_patch then Some p
      else match p with
           | String a (String _ EmptyString) => Some (String a EmptyString)
           | _ => None
           end
  end.

(** The annotation file that goes with it in [_get_random_patch]. *)
Definition xml_file_of (slide_file : slide_entry) : option string :=
  match slide_file with
  | SlidePair _ xml_file => Some xml_file
  | SlidePath (String _ (String b EmptyString)) => Some (String b EmptyString)
  | SlidePath _ => None
  end.




End PatcherVocabulary.

(** ** clinical_compare.py: the table comparison and its summary

    A table is modelled after [pd.read_csv(..., dtype=str)] and
    [set_index('submitter_id')]: the names of the remaining columns in
    order, and the rows by submitter id.  Submitter ids are unique in the
    model, so that [df.loc[submitter_id]] is one row.  Reading the files,
    printing and writing the report are left out; iteration over a Python
    [set] follows [elements]. *)

Module clinical_compare_tables.

Record frame : Type := {
  columns : list string;
  rows : gmap string (gmap string cell)
}.

(** [df.fillna('')] *)
Definition fill_cell (c : cell) : cell :=
  match c with
  | NaN => Str ""
  | Str s => Str s
  end.

Definition fillna (df : frame) : frame :=
  {| columns := columns df;
     rows := (fun row : gmap string cell => fill_cell <$> row) <$> rows df |}.

Record row_diff : Type := {
  submitter_id : string;
  row_diffs : list col_diff      (* the entry ['differences'] of the row *)
}.

Record results : Type := {
  total_common : nat;
  only_in_table1 : list string;
  only_in_table2 : list string;
  differences : list row_diff;
  identical_rows : nat
}.

(** The loop [for submitter_id in common_ids]: the list [differences_found]
    and the counter [results['identical_rows']]. *)
Fixpoint compare_rows (ids : list string) (df1_indexed df2_indexed : frame)
    : res (list row_diff * nat) :=
  match ids with
  | [] => Ok ([], 0%nat)
  | id :: ids' =>
      match rows df1_indexed !! id, rows df2_indexed !! id with
      | Some row1, Some row2 =>
          row_differences ←
            row_differences
              (columns_to_compare (columns df1_indexed) (columns df2_indexed))
              row1 row2;
          rest ← compare_rows ids' df1_indexed df2_indexed;
          Ok (match row_differences with
              | [] => (fst rest, S (snd rest))
              | _ :: _ =>
                  ({| submitter_id := id; row_diffs := row_differences |}
                     :: fst rest, snd rest)
              end)
      | _, _ => Raise KeyError
      end
  end.

Definition compare_tsv_tables (df1 df2 : frame) : res results :=
  let df1_indexed := fillna df1 in
  let df2_indexed := fillna df2 in
  let common_ids : gset string := dom (rows df1_indexed) ∩ dom (rows df2_indexed) in
  let only_in_df1 : gset string := dom (rows df1_indexed) ∖ dom (rows df2_indexed) in
  let only_in_df2 : gset string := dom (rows df2_indexed) ∖ dom (rows df1_indexed) in
  found ← compare_rows (elements common_ids) df1_indexed df2_indexed;
  Ok {| total_common := size common_ids;
        only_in_table1 := elements only_in_df1;
        only_in_table2 := elements only_in_df2;
        differences := fst found;
        identical_rows := snd found |}.

(** [column_differences[col_name] += 1], after the key has been set to 0 when
    it was missing. *)
Definition count_column (column_differences : gmap string nat) (col_diff : col_diff)
    : gmap string nat :=
  let col_name := column col_diff in
  let column_differences :=
    if decide (column_differences !! col_name = None)
    then <[ col_name := 0%nat ]> column_differences
    else column_differences in
  <[ col_name := S (default 0%nat (column_differences !! col_name)) ]> column_differences.

(** The dictionary [create_difference_summary] returns. *)
Definition create_difference_summary (results : results) : gmap string nat :=
  foldl (fun acc row_diff => foldl count_column acc (row_diffs row_diff))
        ∅ (differences results).

End clinical_compare_tables.

(** ** src/sub_models.py: the layer plan of [FC] and [freeze_layers]

    The layers are modelled by the constructor calls that make them. *)

Module sub_models.

Inductive layer : Type :=
| Dropout
| Linear (in_features out_features : Z)
| ReLU
| BatchNorm1d (num_features : Z).

Definition candidates : list Z := [128; 256; 512; 1024; 2048; 4096; 8192].

(** The loop [for size in candidates] of [_pick_n_neurons]. *)
Fixpoint first_fitting (sizes : list Z) (n_features : Z) : option Z :=
  match sizes with
  | [] => None
  | size :: rest =>
      if n_features <=? size then Some size else first_fitting rest n_features
  end.

Definition _pick_n_neurons (n_features : Z) : Z :=
  match first_fitting candidates n_features with
  | Some size => size
  | None => List.last candidates 0
  end.

Definition _make_layer (in_features out_features : Z) (dropout batchnorm : bool)
    : list layer :=
  (if dropout then [Dropout] else [])
  ++ [Linear in_features out_features; ReLU]
  ++ (if batchnorm then [BatchNorm1d out_features] else []).

(** [for _ in range(k)]: the hidden layers after the first, and the width
    of the last of them. *)
Fixpoint hidden_layers (k : nat) (hidden out_features : Z) (dropout : bool)
    : list layer * Z :=
  match k with
  | O => ([], hidden)
  | S k' =>
      let next_hidden := _pick_n_neurons hidden in
      let next_hidden := Z.max next_hidden out_features in
      let '(layers, last_hidden) :=
        hidden_layers k' next_hidden out_features dropout in
      (_make_layer hidden next_hidden dropout true ++ layers, last_hidden)
  end.

(** [FC.__init__]: the list handed to [nn.Sequential]. *)
Definition FC_init (in_features out_features n_layers : Z)
    (dropout batchnorm : bool) (scaling_factor : Z) : res (list layer) :=
  if n_layers =? 1 then
    Ok (_make_layer in_features out_features dropout batchnorm)
  else if n_layers =? 2 then
    let hidden := _pick_n_neurons in_features in
    let hidden := Z.max hidden out_features in
    Ok (_make_layer in_features hidden dropout true
        ++ _make_layer hidden out_features dropout batchnorm)
  else if 2 <? n_layers then
    let hidden := _pick_n_neurons in_features * scaling_factor in
    let '(layers, hidden') :=
      hidden_layers (Z.to_nat (n_layers - 2)) hidden out_features dropout in
    Ok (_make_layer in_features hidden dropout true
        ++ layers
        ++ _make_layer hidden' out_features dropout batchnorm)
  else Raise ValueError.

(** A module as [freeze_layers] sees it: the parameters it holds directly
    and its named children, each with all the parameters below it.
    Parameters are identified by number; one parameter may belong to several
    children.  The flags [requires_grad] live in a map from parameters. *)
Record module : Type := {
  own_parameters : list positive;
  named_children : list (string * list positive)
}.

(** [model.parameters()] *)
Definition parameters (model : module) : list positive :=
  own_parameters model ++ concat (map snd (named_children model)).

(** [for param in params: param.requires_grad = v] *)
Definition set_requires_grad (params : list positive) (v : bool)
    (flags : gmap positive bool) : gmap positive bool :=
  foldl (fun flags param => <[ param := v ]> flags) flags params.

(** The loop over [model.named_children()]. *)
Fixpoint unfreeze_from (up_to_layer : string) (unfreeze : bool)
    (children : list (string * list positive)) (flags : gmap positive bool)
    : gmap positive bool :=
  match children with
  | [] => flags
  | (name, params) :: rest =>
      let unfreeze := if String.eqb name up_to_layer then true else unfreeze in
      let flags := if unfreeze then set_requires_grad params true flags else flags in
      unfreeze_from up_to_layer unfreeze rest flags
  end.

Definition freeze_layers (model : module) (up_to_layer : option string)
    (flags : gmap positive bool) : gmap positive bool :=
  match up_to_layer with
  | None => flags
  | Some up_to_layer =>
      let flags := set_requires_grad (parameters model) false flags in
      unfreeze_from up_to_layer false (named_children model) flags
  end.

(** The widths of the [Linear] layers of a plan, in order. *)
Fixpoint linears (layers : list layer) : list (Z * Z) :=
  match layers with
  | [] => []
  | Linear in_features out_features :: rest =>
      (in_features, out_features) :: linears rest
  | _ :: rest => linears rest
  end.

(** [chained a b dims]: the widths fit together from [a] to [b], each layer
    taking what the one before it gives. *)
Fixpoint chained (a b : Z) (dims : list (Z * Z)) : Prop :=
  match dims with
  | [] => a = b
  | (in_features, out_features) :: rest =>
      in_features = a /\ chained out_features b rest
  end.

End sub_models.

(** ** A concrete environment

    Images are their source file names.  A slide whose name starts with
    ["bad"] cannot be read, every other slide yields a patch; saving always
    succeeds and every identifier is the same 32 hexadecimal digits. *)
Definition demo_error : exn := OtherException "OpenSlideError".

Definition demo_environment : Environment := {|
  Image := string;
  Annotation := unit;
  read_random_patch := fun _ wsi_file _ _ _ =>
    if startswith "bad" wsi_file then AnnotatedError demo_error
    else AnnotatedPatch wsi_file tt;
  read_random_tissue_patch := fun _ wsi_file _ _ =>
    if startswith "bad" wsi_file then TissueError demo_error
    else TissuePatch wsi_file;
  image_eq_str := String.eqb;
  image_save := fun _ _ _ => None;
  uuid4_hex := fun _ => "3f2a9c1e5b7d4e0fa1b2c3d4e5f60718"
|}.

Definition demo_world : @World demo_environment :=
  {| tick := 0; dirs := ∅; opened := []; saved := [] |}.

(** A second environment: no slide has labels, and reading a slide for a
    tissue patch is interrupted from the keyboard. *)
Definition interrupting_environment : Environment := {|
  Image := string;
  Annotation := unit;
  read_random_patch := fun _ _ _ _ _ => NoLabels;
  read_random_tissue_patch := fun _ _ _ _ => TissueError KeyboardInterrupt;
  image_eq_str := String.eqb;
  image_save := fun _ _ _ => None;
  uuid4_hex := fun _ => "3f2a9c1e5b7d4e0fa1b2c3d4e5f60718"
|}.

Definition interrupting_world : @World interrupting_environment :=
  {| tick := 0; dirs := ∅; opened := []; saved := [] |}.

(** Two small clinical tables.  Patients P1 and P2 are in both; P1 differs
    in age only, P2 not at all. *)
Definition demo_table1 : clinical_compare_tables.frame :=
  {| clinical_compare_tables.columns := ["age"; "gender"; "group"]%string;
     clinical_compare_tables.rows :=
       {[ "P1"%string := {[ "age"%string := Str "61"; "gender"%string := Str "Male";
                            "group"%string := Str "a" ]};
          "P2"%string := {[ "age"%string := Str "70.0"; "gender"%string := NaN;
                            "group"%string := Str "b" ]};
          "P4"%string := {[ "age"%string := Str "55"; "gender"%string := Str "male";
                            "group"%string := Str "a" ]} ]} |}.

Definition demo_table2 : clinical_compare_tables.frame :=
  {| clinical_compare_tables.columns := ["gender"; "age"; "group"]%string;
     clinical_compare_tables.rows :=
       {[ "P1"%string := {[ "age"%string := Str "62"; "gender"%string := Str "MALE";
                            "group"%string := Str "z" ]};
          "P2"%string := {[ "age"%string := Str "70"; "gender"%string := Str "female";
                            "group"%string := Str "c" ]};
          "P3"%string := {[ "age"%string := Str "48"; "gender"%string := NaN;
                            "group"%string := Str "c" ]} ]} |}.

Definition demo_results : clinical_compare_tables.results :=
  {| clinical_compare_tables.total_common := 2;
     clinical_compare_tables.only_in_table1 := ["P4"%string];
     clinical_compare_tables.only_in_table2 := ["P3"%string];
     clinical_compare_tables.differences :=
       [ {| clinical_compare_tables.submitter_id := "P1"%string;
            clinical_compare_tables.row_diffs :=
              [ {| column := "age"%string; table1_value := "61"%string;
                   table2_value := "62"%string |} ] |} ];
     clinical_compare_tables.identical_rows := 1 |}.

(** * Properties *)

(** ** Strings *)

Section StringFacts.

Local Open Scope string_scope.

Lemma append_nil_l (s : string) : "" ++ s = s.
Proof. reflexivity. Qed.

Lemma append_cons (c : ascii) (s t : string) :
  String c s ++ t = String c (s ++ t).
Proof. reflexivity. Qed.

Lemma append_nil_r (s : string) : s ++ "" = s.
Proof.
  induction s as [|c s IH]; [reflexivity|].
  rewrite append_cons, IH. reflexivity.
Qed.

Lemma startswith_app (p post : string) : startswith p (p ++ post) = true.
Proof.
  induction p as [|c p IH]; [reflexivity|].
  rewrite append_cons. simpl. rewrite Ascii.eqb_refl. exact IH.
Qed.

Lemma startswith_inv (p s : string) :
  startswith p s = true -> exists post, s = p ++ post.
Proof.
  revert s. induction p as [|c p IH]; intros s Hs.
  - exists s. reflexivity.
  - destruct s as [|d s]; simpl in Hs; [discriminate|].
    apply andb_prop in Hs as [Hc Hp].
    apply Ascii.eqb_eq in Hc as ->.
    destruct (IH _ Hp) as [post ->]. exists post. reflexivity.
Qed.

Lemma startswith_contains (p s : string) :
  startswith p s = true -> contains p s = true.
Proof. destruct s; simpl; intros ->; reflexivity. Qed.

(** [contains] decides the substring relation. *)
Lemma contains_spec (sub s : string) :
  contains sub s = true <-> exists pre post, s = pre ++ sub ++ post.
Proof.
  split.
  - induction s as [|c s IH]; simpl; intros Hc.
    + rewrite orb_false_r in Hc.
      apply startswith_inv in Hc as [post ->]. exists "", post. reflexivity.
    + apply orb_prop in Hc as [Hc|Hc].
      * apply startswith_inv in Hc as [post ->]. exists "", post. reflexivity.
      * destruct (IH Hc) as (pre & post & ->).
        exists (String c pre), post. reflexivity.
  - intros (pre & post & ->). induction pre as [|c pre IH].
    + rewrite append_nil_l. apply startswith_contains, startswith_app.
    + rewrite append_cons. simpl. rewrite IH. apply orb_true_r.
Qed.

Lemma contains_empty (s : string) : contains "" s = true.
Proof. destruct s; reflexivity. Qed.

Lemma contains_refl (s : string) : contains s s = true.
Proof.
  apply contains_spec. exists "", "".
  rewrite append_nil_l, append_nil_r. reflexivity.
Qed.

End StringFacts.

(** ** Floating point *)

Section FloatFacts.

(** The sign given to the rounding functions only decides the sign of their
    result. *)
Lemma binary_round_aux_abs (s s' : bool) (m e : Z) (l : location) :
  SFabs (binary_round_aux prec emax s m e l)
  = SFabs (binary_round_aux prec emax s' m e l).
Proof.
  unfold binary_round_aux.
  destruct (shr_fexp prec emax m e l) as [mrs e1].
  destruct (shr_fexp prec emax _ e1 loc_Exact) as [mrs' e2].
  destruct (shr_m mrs'); try reflexivity.
  destruct (e2 <=? emax - prec)%Z; reflexivity.
Qed.

Lemma binary_round_abs (s s' : bool) (m : positive) (e : Z) :
  SFabs (binary_round prec emax s m e) = SFabs (binary_round prec emax s' m e).
Proof.
  unfold binary_round. destruct (shl_align m e _) as [mz ez].
  apply binary_round_aux_abs.
Qed.

Lemma binary_normalize_opp_abs (m e : Z) :
  SFabs (binary_normalize prec emax (- m) e false)
  = SFabs (binary_normalize prec emax m e false).
Proof. destruct m; simpl; [reflexivity| |]; apply binary_round_abs. Qed.

(** [abs(x - y)] and [abs(y - x)] are the same double. *)
Lemma float_abs_sub_sym (x y : float) :
  float_abs (float_sub x y) = float_abs (float_sub y x).
Proof.
  unfold float_abs, float_sub.
  destruct x as [sx|sx| |sx mx ex]; destruct y as [sy|sy| |sy my ey];
    try reflexivity;
    try (destruct sx, sy; reflexivity); try (destruct sx; reflexivity);
    try (destruct sy; reflexivity).
  unfold SFsub. rewrite (Z.min_comm ey ex).
  rewrite <- binary_normalize_opp_abs. f_equal. f_equal. lia.
Qed.

(** Converting a string raises nothing but [ValueError]. *)
Lemma float_of_str_raises (s : string) (e : exn) :
  float_of_str s = Raise e -> e = ValueError.
Proof.
  assert (Hinner : forall l, float_from_string_inner l = Raise e -> e = ValueError).
  { intros l. unfold float_from_string_inner.
    destruct (take_sign _) as [neg body].
    destruct (parse_decimal neg body); [discriminate|].
    destruct (parse_inf_or_nan neg body); [discriminate|]. congruence. }
  unfold float_of_str.
  destruct (existsb _ _); [|apply Hinner].
  destruct (drop_underscores _ _); [apply Hinner|congruence].
Qed.

(** The constant of the comparison is what the literal [1e-6] denotes. *)
Lemma float_1e_6_literal : float_of_str "1e-6" = Ok float_1e_6.
Proof. vm_compute. reflexivity. Qed.

End FloatFacts.

(** ** [values_are_equivalent] *)

Section Comparator.

Local Open Scope string_scope.

(** The [try] block returns [True], falls through, or raises [ValueError]. *)
Lemma numeric_comparison_cases (a b : string) :
  numeric_comparison a b = Ok (Some true)
  \/ numeric_comparison a b = Ok None
  \/ numeric_comparison a b = Raise ValueError.
Proof.
  unfold numeric_comparison.
  destruct (float_of_str a) as [x|e] eqn:Ha; simpl.
  - destruct (float_of_str b) as [y|e] eqn:Hb; simpl.
    + destruct (float_lt _ _); auto.
    + apply float_of_str_raises in Hb as ->. auto.
  - apply float_of_str_raises in Ha as ->. auto.
Qed.

Lemma numeric_comparison_sym (a b : string) :
  numeric_comparison a b = numeric_comparison b a.
Proof.
  unfold numeric_comparison.
  destruct (float_of_str a) as [x|e] eqn:Ha;
    destruct (float_of_str b) as [y|e'] eqn:Hb; simpl; try reflexivity.
  - rewrite float_abs_sub_sym. reflexivity.
  - apply float_of_str_raises in Ha as ->.
    apply float_of_str_raises in Hb as ->. reflexivity.
Qed.

(** The function never raises, and its verdict is [True] when the numeric
    test succeeds and the containment test otherwise. *)
Lemma values_are_equivalent_eq (a b : string) :
  values_are_equivalent a b
  = Ok match numeric_comparison a b with
       | Ok (Some _) => true
       | _ => contains (lower a) (lower b) || contains (lower b) (lower a)
       end.
Proof.
  unfold values_are_equivalent.
  destruct (String.eqb a b) eqn:E.
  { apply String.eqb_eq in E as ->. rewrite contains_refl.
    destruct (numeric_comparison b b) as [[?|]|?]; reflexivity. }
  destruct (String.eqb (lower a) (lower b)) eqn:E'.
  { apply String.eqb_eq in E' as ->. rewrite contains_refl.
    destruct (numeric_comparison a b) as [[?|]|?]; reflexivity. }
  destruct (numeric_comparison_cases a b) as [-> | [-> | ->]]; simpl;
    try reflexivity;
    destruct (contains (lower a) (lower b) || contains (lower b) (lower a));
    reflexivity.
Qed.

(** C1 (as amended).  [values_are_equivalent("Male", "Female")] returns
    [True]: neither string converts to a number, and the lower-cased
    ["male"] occurs inside the lower-cased ["female"]. *)
Theorem male_female_equivalent :
  float_of_str "Male" = Raise ValueError
  /\ float_of_str "Female" = Raise ValueError
  /\ contains (lower "Male") (lower "Female") = true
  /\ values_are_equivalent "Male" "Female" = Ok true.
Proof. repeat split; vm_compute; reflexivity. Qed.

(** C1 as stated fails: the call does not return [False]. *)
Lemma male_female_not_false :
  values_are_equivalent "Male" "Female" <> Ok false.
Proof. vm_compute. discriminate. Qed.

(** C2.  [values_are_equivalent] is reflexive and symmetric. *)
Theorem values_are_equivalent_refl_sym (a b : string) :
  values_are_equivalent a a = Ok true
  /\ values_are_equivalent a b = values_are_equivalent b a.
Proof.
  split.
  - unfold values_are_equivalent. rewrite String.eqb_refl. reflexivity.
  - rewrite !values_are_equivalent_eq, (numeric_comparison_sym a b).
    rewrite (orb_comm (contains (lower a) (lower b))). reflexivity.
Qed.

(** The numeric branch.  When both strings convert to numbers and the test
    [abs(num1 - num2) < 1e-6], evaluated in double precision, holds, the
    function returns [True]. *)
Theorem numerically_close_equivalent (a b : string) (num1 num2 : float) :
  float_of_str a = Ok num1 ->
  float_of_str b = Ok num2 ->
  float_lt (float_abs (float_sub num1 num2)) float_1e_6 = true ->
  values_are_equivalent a b = Ok true.
Proof.
  intros Ha Hb Hlt. rewrite values_are_equivalent_eq.
  unfold numeric_comparison. rewrite Ha, Hb. simpl. rewrite Hlt. reflexivity.
Qed.

(** The example of the specification: ["23486.0"] against ["23486"]. *)
Lemma numerically_close_equivalent_23486 :
  values_are_equivalent "23486.0" "23486" = Ok true.
Proof.
  apply (numerically_close_equivalent "23486.0" "23486"
           (S754_finite false 6455782522486784 (-38))
           (S754_finite false 6455782522486784 (-38)));
    vm_compute; reflexivity.
Defined.

(** C3, where the code departs from it.  ["inf"] and ["1e999"] both convert
    to the same number, positive infinity, and so are equal when rounded to
    six decimal places, as the comment on the test has it; yet their
    difference is a NaN, the test [abs(num1 - num2) < 1e-6] is false, no
    string contains the other, and the function returns [False]. *)
Theorem equal_infinities_not_equivalent :
  float_of_str "inf" = Ok (S754_infinity false)
  /\ float_of_str "1e999" = Ok (S754_infinity false)
  /\ float_lt (float_abs (float_sub (S754_infinity false) (S754_infinity false)))
       float_1e_6 = false
  /\ values_are_equivalent "inf" "1e999" = Ok false.
Proof. repeat split; vm_compute; reflexivity. Qed.

(** The subtraction rounds as well: ["1e-6"] and ["1e-30"] differ by less
    than the tolerance, but their difference in double precision is the
    tolerance itself, and the function returns [False]. *)
Example rounded_difference_not_equivalent :
  float_of_str "1e-6" = Ok float_1e_6
  /\ (exists num2, float_of_str "1e-30" = Ok num2
                  /\ float_lt (S754_zero false) num2 = true
                  /\ float_sub float_1e_6 num2 = float_1e_6)
  /\ values_are_equivalent "1e-6" "1e-30" = Ok false.
Proof.
  split; [vm_compute; reflexivity|]. split; [|vm_compute; reflexivity].
  eexists. split; [vm_compute; reflexivity|]. split; vm_compute; reflexivity.
Qed.

(** X24.  Two strings that convert to the same finite number are
    equivalent, however they are written. *)
Theorem equal_numbers_equivalent (a b : string) (num : float) :
  float_of_str a = Ok num ->
  float_of_str b = Ok num ->
  isfinite num = true ->
  values_are_equivalent a b = Ok true.
Proof.
  intros Ha Hb Hfin. rewrite values_are_equivalent_eq.
  unfold numeric_comparison. rewrite Ha, Hb. simpl.
  assert (float_sub num num = S754_zero false) as ->.
  { destruct num as [s| s| |s m e]; try discriminate.
    - destruct s; reflexivity.
    - unfold float_sub, SFsub. rewrite Z.sub_diag. reflexivity. }
  reflexivity.
Qed.

(** One thousand, in scientific notation and with a decimal point. *)
Lemma equal_numbers_equivalent_witness :
  values_are_equivalent "1e3" "1000.0" = Ok true.
Proof.
  apply (equal_numbers_equivalent "1e3" "1000.0"
           (S754_finite false 8796093022208000 (-43)));
    vm_compute; reflexivity.
Defined.

(** C4.  When the lower-cased form of one string occurs inside the
    lower-cased form of the other, the function returns [True]. *)
Theorem substring_equivalent (a b : string) :
  (exists pre post, lower b = pre ++ lower a ++ post)
  \/ (exists pre post, lower a = pre ++ lower b ++ post) ->
  values_are_equivalent a b = Ok true.
Proof.
  intros Hsub. rewrite values_are_equivalent_eq.
  assert (contains (lower a) (lower b) || contains (lower b) (lower a) = true)
    as ->.
  { apply orb_true_iff. destruct Hsub as [Hsub|Hsub]; [left|right];
      apply contains_spec, Hsub. }
  destruct (numeric_comparison a b) as [[?|]|?]; reflexivity.
Qed.

(** The example of the specification: ["TCGA-STAD"] against ["STAD"]. *)
Lemma substring_equivalent_tcga_stad :
  values_are_equivalent "TCGA-STAD" "STAD" = Ok true.
Proof.
  apply substring_equivalent. right. exists "tcga-", "". reflexivity.
Defined.

(** C5.  When either conversion to a number fails, no exception reaches the
    caller: the function returns the Boolean of the string test. *)
Theorem conversion_failure_falls_back (a b : string) (e : exn) :
  float_of_str a = Raise e \/ float_of_str b = Raise e ->
  values_are_equivalent a b
  = Ok (contains (lower a) (lower b) || contains (lower b) (lower a)).
Proof.
  intros Hfail. rewrite values_are_equivalent_eq.
  destruct (numeric_comparison a b) as [[t|]|?] eqn:Hn; try reflexivity.
  exfalso. unfold numeric_comparison in Hn.
  destruct Hfail as [Hf|Hf].
  - rewrite Hf in Hn. discriminate.
  - destruct (float_of_str a); [rewrite Hf in Hn|]; discriminate.
Qed.

Lemma conversion_failure_falls_back_witness :
  values_are_equivalent "Male" "23486" = Ok false.
Proof.
  apply (conversion_failure_falls_back "Male" "23486" ValueError).
  left. vm_compute. reflexivity.
Defined.

(** C9.  Anything compared with the empty string is equivalent to it, on
    either side; hence a row compared with a row whose compared cells are
    blank (or missing values) shows no difference. *)
Theorem blank_is_equivalent_to_anything :
  (forall a : string,
      values_are_equivalent a "" = Ok true
      /\ values_are_equivalent "" a = Ok true)
  /\ (forall (cols : list string) (row1 row2 : gmap string cell),
         (forall col, col ∈ cols ->
            exists c1 c2, row1 !! col = Some c1 /\ row2 !! col = Some c2
                          /\ (cell_value c1 = "" \/ cell_value c2 = "")) ->
         row_differences cols row1 row2 = Ok []).
Proof.
  assert (Hblank : forall a : string,
             values_are_equivalent a "" = Ok true
             /\ values_are_equivalent "" a = Ok true).
  { intros a. rewrite !values_are_equivalent_eq.
    change (lower "") with "". rewrite contains_empty, orb_true_r.
    split; [destruct (numeric_comparison a "") as [[?|]|?]
           |destruct (numeric_comparison "" a) as [[?|]|?]]; reflexivity. }
  split; [exact Hblank|].
  intros cols row1 row2. induction cols as [|col cols IH]; intros Hcols.
  - reflexivity.
  - destruct (Hcols col) as (c1 & c2 & H1 & H2 & Hb); [left|].
    simpl. rewrite H1, H2.
    assert (values_are_equivalent (cell_value c1) (cell_value c2) = Ok true)
      as ->.
    { destruct Hb as [-> | ->]; apply Hblank. }
    simpl. rewrite IH; [reflexivity|].
    intros c Hc. apply Hcols. right. exact Hc.
Qed.

Lemma blank_is_equivalent_to_anything_witness :
  row_differences ["gender"; "race"]
    {[ "gender" := Str "Male"; "race" := Str "white" ]}
    {[ "gender" := Str ""; "race" := NaN ]} = Ok [].
Proof.
  apply (proj2 blank_is_equivalent_to_anything).
  intros col Hcol.
  apply elem_of_cons in Hcol as [-> | Hcol];
    [|apply elem_of_cons in Hcol as [-> | Hcol]; [|inversion Hcol]].
  - exists (Str "Male"), (Str ""). repeat split; auto.
  - exists (Str "white"), NaN. repeat split; auto.
Defined.

End Comparator.

(** ** [PatchGenerator] *)

Section Generator.
Context `{Environment}.
Import PatchGenerator.

Lemma set_i_set_i (a b : Z) (g : t) : set_i a (set_i b g) = set_i a g.
Proof. reflexivity. Qed.

Lemma set_i_id (g : t) : set_i (i g) g = g.
Proof. destruct g; reflexivity. Qed.

(** One pass of the loop changes nothing of the generator but its cursor;
    a pass that goes round again, or returns, has advanced it by one. *)
Lemma loop_body_inv (g g' : t) (w w' : World) (o : option (res result)) :
  loop_body g w = (o, g', w') ->
  (g' = set_i (i g + 1) g
   /\ (o = None -> exists r, fetch g w = (r, w') /\ no_patch r)
   /\ (forall r, o = Some r -> exists x, r = Ok x))
  \/ (g' = g /\ exists e, o = Some (Raise e) /\ is_Exception e = false).
Proof.
  unfold loop_body. destruct (fetch g w) as [[r|e] w1] eqn:Hf.
  - destruct (is_invalid r) eqn:Hi; intros [= <- <- <-]; left;
      (split; [reflexivity|split]).
    + intros _. exists (Ok r). auto.
    + discriminate.
    + discriminate.
    + intros ? [= <-]. eauto.
  - destruct (is_IndexError e) eqn:Hx.
    { intros [= <- <- <-]. left. split; [reflexivity|split].
      - intros _. exists (Raise e). split; [reflexivity|].
        destruct e; try discriminate; reflexivity.
      - discriminate. }
    destruct (is_Exception e) eqn:He; intros [= <- <- <-].
    + left. split; [reflexivity|split].
      * intros _. exists (Raise e). auto.
      * discriminate.
    + right. eauto.
Qed.

(** The loop of [__next__], unfolded once. *)
Lemma next_unfold (g : t) (w : World) :
  __next__ g w =
  if i g <? n g then
    match loop_body g w with
    | (Some r, g', w') => (r, g', w')
    | (None, g', w') => __next__ g' w'
    end
  else (Raise StopIteration, reset g, w).
Proof.
  revert g w.
  apply (__next___elim (fun g w out =>
    out = if i g <? n g then
            match loop_body g w with
            | (Some r, g', w') => (r, g', w')
            | (None, g', w') => __next__ g' w'
            end
          else (Raise StopIteration, reset g, w))).
  - intros g Hlt w _. rewrite Hlt. reflexivity.
  - intros g Hlt w r g' w' Hbody _ _. rewrite Hlt, Hbody. reflexivity.
  - intros g Hlt w g' w' Hbody _ _ _. rewrite Hlt, Hbody. reflexivity.
Qed.

Lemma skipped_set_i (g : t) (k j : Z) (w w' : World) :
  skipped g j w w' -> skipped (set_i k g) j w w'.
Proof.
  induction 1 as [j w Hj | j w w1 w' r Hj Hf Hr _ IH].
  - apply skipped_end. exact Hj.
  - eapply skipped_step; eauto.
Qed.

(** What a call of [__next__] does to the generator, and how it can end. *)
Lemma next_inv (g : t) (w : World) :
  forall r g' w', __next__ g w = (r, g', w') ->
    g' = set_i (i g') g
    /\ (0 <= i g <= n g -> 0 <= i g' <= n g)
    /\ match r with
       | Ok _ => i g < i g'
       | Raise e =>
           (e = StopIteration /\ g' = reset g /\ skipped g (i g) w w')
           \/ is_Exception e = false
       end.
Proof.
  revert g w.
  apply (__next___elim (fun g w out => forall r g' w', out = (r, g', w') ->
    g' = set_i (i g') g
    /\ (0 <= i g <= n g -> 0 <= i g' <= n g)
    /\ match r with
       | Ok _ => i g < i g'
       | Raise e =>
           (e = StopIteration /\ g' = reset g /\ skipped g (i g) w w')
           \/ is_Exception e = false
       end)).
  - intros g Hlt w _ r g' w' [= <- <- <-].
    apply Z.ltb_ge in Hlt. repeat split; simpl; try lia.
    left. repeat split. apply skipped_end. exact Hlt.
  - intros g Hlt w r g1 w1 Hbody _ _ r' g' w' [= <- <- <-].
    apply Z.ltb_lt in Hlt.
    destruct (loop_body_inv _ _ _ _ _ Hbody)
      as [(-> & _ & Hok) | (-> & e & [= ->] & He)].
    + destruct (Hok r eq_refl) as [x ->]. simpl. repeat split; lia.
    + split; [symmetry; apply set_i_id|]. split; [auto|]. right. exact He.
  - intros g Hlt w g1 w1 Hbody IH _ _ r g' w' Hout.
    apply Z.ltb_lt in Hlt.
    destruct (loop_body_inv _ _ _ _ _ Hbody)
      as [(-> & Hnone & _) | (_ & e & [=] & _)].
    destruct (Hnone eq_refl) as (r1 & Hf & Hr).
    destruct (IH _ _ _ Hout) as (Hg' & Hrange & Hend). simpl in *.
    split; [exact Hg'|]. split; [lia|].
    destruct r as [x|e]; [lia|].
    destruct Hend as [(-> & -> & Hsk) | He]; [left|right; exact He].
    repeat split.
    apply (skipped_set_i _ (i g)) in Hsk.
    rewrite set_i_set_i, set_i_id in Hsk.
    eapply skipped_step; [exact Hlt| |exact Hr|exact Hsk].
    rewrite set_i_id. exact Hf.
Qed.

(** C7.  When fetching a patch for the slide under the cursor fails with
    an error, [__next__] goes on exactly as it would from the next slide:
    the error is handled, the cursor has moved past the failing slide.  An
    error leaves [__next__] only as [StopIteration], and then every slide
    from the cursor to the end of the list has been fetched without
    yielding a patch. *)
Theorem next_skips_failing_slide (g : t) (w : World) :
  (forall e w1,
      i g < n g ->
      fetch g w = (Raise e, w1) ->
      is_Exception e = true ->
      __next__ g w = __next__ (set_i (i g + 1) g) w1)
  /\ (forall e g' w',
         __next__ g w = (Raise e, g', w') ->
         is_Exception e = true ->
         e = StopIteration /\ skipped g (i g) w w').
Proof.
  split.
  - intros e w1 Hlt Hf He. rewrite (next_unfold g w).
    apply Z.ltb_lt in Hlt. rewrite Hlt. unfold loop_body. rewrite Hf, He.
    destruct (is_IndexError e); reflexivity.
  - intros e g' w' Hout He.
    destruct (next_inv g w _ _ _ Hout) as (_ & _ & [(-> & _ & Hsk) | Hne]).
    + split; [reflexivity|exact Hsk].
    + congruence.
Qed.

(** C10.  The cursor lies between 0 and [n] once [__init__] has run and
    after every call of [__next__]; when [__next__] raises [StopIteration]
    the cursor is back at 0 and the generator is in the state [__init__]
    gives it for the same arguments (with [n] as it was), ready to hand
    out the first slide again. *)
Theorem cursor_invariant :
  (forall slide_files slide_level random_tissue_patch patch_size
          return_annotation,
      let g := __init__ slide_files slide_level random_tissue_patch
                 patch_size return_annotation in
      0 <= i g <= n g)
  /\ (forall g w r g' w',
         0 <= i g <= n g ->
         __next__ g w = (r, g', w') ->
         0 <= i g' <= n g' /\ n g' = n g)
  /\ (forall g w g' w',
         __next__ g w = (Raise StopIteration, g', w') ->
         i g' = 0
         /\ g' = reset g
         /\ g' = set_n (n g)
                   (__init__ (slide_files g) (slide_level g)
                      (random_tissue_patch g) (patch_size g)
                      (return_annotation g))).
Proof.
  split; [|split].
  - intros. subst g. simpl. lia.
  - intros g w r g' w' Hi Hout.
    destruct (next_inv g w _ _ _ Hout) as (Hg' & Hrange & _).
    assert (n g' = n g) as -> by (rewrite Hg'; reflexivity).
    auto.
  - intros g w g' w' Hout.
    destruct (next_inv g w _ _ _ Hout) as (_ & _ & [(_ & -> & _) | He]);
      [|discriminate].
    repeat split.
Qed.

End Generator.

(** Two slides read for tissue patches in the concrete environment: the
    first cannot be read, the second can. *)
Lemma next_skips_failing_slide_witness :
  let g := PatchGenerator.__init__
             [SlidePath "bad.svs"; SlidePath "good.svs"] 0 true (299, 299) false in
  PatchGenerator.__next__ g demo_world
  = PatchGenerator.__next__ (PatchGenerator.set_i 1 g)
      (PatchGenerator.open_slide "bad.svs" demo_world)
  /\ (StopIteration = StopIteration
      /\ PatchGenerator.skipped (PatchGenerator.set_i 2 g) 2
           demo_world demo_world).
Proof.
  intros g. split.
  - apply (proj1 (next_skips_failing_slide g demo_world) demo_error).
    + reflexivity.
    + reflexivity.
    + reflexivity.
  - apply (proj2 (next_skips_failing_slide (PatchGenerator.set_i 2 g) demo_world)
             StopIteration (PatchGenerator.reset g) demo_world).
    + rewrite next_unfold. reflexivity.
    + reflexivity.
Defined.

Lemma cursor_invariant_witness :
  let g := PatchGenerator.__init__
             [SlidePath "bad.svs"; SlidePath "good.svs"] 0 true (299, 299) false in
  (0 <= 2 <= PatchGenerator.n g /\ PatchGenerator.n g = PatchGenerator.n g)
  /\ (PatchGenerator.i (PatchGenerator.reset g) = 0
      /\ PatchGenerator.reset g = PatchGenerator.reset (PatchGenerator.set_i 2 g)
      /\ PatchGenerator.reset g = g).
Proof.
  intros g. split.
  - apply (proj1 (proj2 (@cursor_invariant demo_environment)) g demo_world
             (Ok (@PatchGenerator.PatchName demo_environment "good.svs" "good.svs"))
             (PatchGenerator.set_i 2 g)
             (PatchGenerator.open_slide "good.svs"
                (PatchGenerator.open_slide "bad.svs" demo_world))).
    + simpl. lia.
    + rewrite !next_unfold. reflexivity.
  - apply (proj2 (proj2 (@cursor_invariant demo_environment))
             (PatchGenerator.set_i 2 g) demo_world
             (PatchGenerator.reset g) demo_world).
    rewrite next_unfold. reflexivity.
Defined.

(** ** [os.path] *)

Section PathFacts.

Local Open Scope string_scope.

Lemma string_of_list_ascii_app (l1 l2 : list ascii) :
  string_of_list_ascii (l1 ++ l2)%list
  = string_of_list_ascii l1 ++ string_of_list_ascii l2.
Proof.
  induction l1 as [|c l1 IH]; [reflexivity|].
  simpl. rewrite IH. reflexivity.
Qed.

Lemma string_length_of_list (l : list ascii) :
  String.length (string_of_list_ascii l) = length l.
Proof. induction l as [|c l IH]; simpl; congruence. Qed.

Lemma length_list_of_string (s : string) :
  length (list_ascii_of_string s) = String.length s.
Proof. induction s as [|c s IH]; simpl; congruence. Qed.

(** [s[:i] + s[i:] == s] *)
Lemma str_to_from (i : Z) (s : string) :
  os_path.str_to i s ++ os_path.str_from i s = s.
Proof.
  unfold os_path.str_to, os_path.str_from.
  rewrite <- string_of_list_ascii_app, take_drop.
  apply string_of_list_ascii_of_string.
Qed.

(** [root + ext == p] for [root, ext = os.path.splitext(p)]. *)
Lemma splitext_app (p : string) :
  fst (os_path.splitext p) ++ snd (os_path.splitext p) = p.
Proof.
  unfold os_path.splitext. destruct (_ && _); simpl.
  - apply str_to_from.
  - apply append_nil_r.
Qed.

Lemma append_assoc (a b c : string) : (a ++ b) ++ c = a ++ b ++ c.
Proof.
  induction a as [|x a IH]; [reflexivity|].
  rewrite !append_cons, IH. reflexivity.
Qed.

(** The first five characters of a UUID in hexadecimal. *)
Lemma uuid_prefix (u : string) :
  is_uuid_hex u = true ->
  String.length (os_path.str_to 5 u) = 5%nat
  /\ is_hex (os_path.str_to 5 u) = true.
Proof.
  unfold is_uuid_hex, is_hex, os_path.str_to. intros Hu.
  apply andb_prop in Hu as [Hlen Hhex]. apply Nat.eqb_eq in Hlen.
  rewrite string_length_of_list, list_ascii_of_string_of_list_ascii. split.
  - rewrite length_take, length_list_of_string, Hlen. reflexivity.
  - apply forallb_forall. intros c Hc.
    apply (proj1 (forallb_forall _ _) Hhex).
    apply list_elem_of_In. apply list_elem_of_In in Hc.
    rewrite <- (take_drop (Z.to_nat 5) (list_ascii_of_string u)).
    apply elem_of_app. left. exact Hc.
Qed.





End PathFacts.

(** ** [OfflinePatcher] *)

Section Patcher.
Context `{Environment}.
Import OfflinePatcher.

Local Open Scope string_scope.

(** What [_compose_path] makes of a given [filename]: the target directory
    joined with [<base>_<id>.png], where [<base>] is the file name after two
    rounds of [os.path.splitext] (a prefix of the file name) and [<id>] is
    the first five hexadecimal digits of a fresh UUID; and [__init__]
    leaves the target directory in existence, creating it exactly when it
    was missing. *)
Lemma compose_path_shape :
  (forall (self : t) (w : World) (name : string),
      filename self = Some name ->
      file_format self = "png" ->
      is_uuid_hex (uuid4_hex (tick w)) = true ->
      let base := fst (os_path.splitext (fst (os_path.splitext name))) in
      let unique_id := os_path.str_to 5 (uuid4_hex (tick w)) in
      (exists ext, name = base ++ ext)
      /\ String.length unique_id = 5%nat
      /\ is_hex unique_id = true
      /\ fst (_compose_path self w)
         = Ok (os_path.join (target_dir self)
                 (base ++ "_" ++ unique_id ++ ".png")))
  /\ (forall slide_files dir patch_size slide_level get_random_tissue_patch w,
         let self_w := __init__ slide_files dir patch_size slide_level
                         get_random_tissue_patch w in
         target_dir (fst self_w) = dir
         /\ file_format (fst self_w) = "png"
         /\ isdir dir (snd self_w) = true
         /\ dirs (snd self_w)
            = (if isdir dir w then dirs w else {[ dir ]} ∪ dirs w)).
Proof.
  split.
  - intros self w name Hname Hfmt Hu base unique_id.
    destruct (uuid_prefix _ Hu) as [Hlen Hhex].
    repeat split; try assumption.
    + exists (snd (os_path.splitext (fst (os_path.splitext name)))
               ++ snd (os_path.splitext name)).
      subst base. rewrite <- append_assoc, !splitext_app. reflexivity.
    + unfold _compose_path. rewrite Hname, Hfmt. simpl.
      subst base unique_id. rewrite append_assoc. reflexivity.
  - intros slide_files dir patch_size slide_level tissue w self_w.
    subst self_w. unfold __init__.
    destruct (isdir dir w) eqn:Hd; simpl; repeat split; try assumption.
    unfold isdir, makedirs. simpl. apply bool_decide_eq_true. set_solver.
Qed.

(** On plain paths read for tissue patches the loops do run.  The draws
    for one slide: at most [k] are made, all on that slide, and the loop ends
    by itself or by [break], provided the libraries raise nothing outside
    [Exception]. *)
Lemma draws_on_path (k : nat) (p : string) (self : t) (w : World) :
  PatchGenerator.random_tissue_patch (patch_gen self) = true ->
  (forall j f l s e,
      read_random_tissue_patch j f l s = TissueError e -> is_Exception e = true) ->
  (forall j img path e, image_save j img path = Some e -> is_Exception e = true) ->
  exists (c : nat) (self' : t) (w' : World),
    draws k (SlidePath p) self w = (None, self', w')
    /\ (c <= k)%nat
    /\ opened w' = (opened w ++ replicate c p)%list
    /\ patch_gen self' = patch_gen self
    /\ slide_files self' = slide_files self.
Proof.
  intros Hmode Hread Hsave. revert self w Hmode.
  induction k as [|k IH]; intros self w Hmode.
  { exists 0%nat, self, w. simpl. rewrite app_nil_r. repeat split; lia. }
  simpl. unfold draw_and_save. rewrite Hmode.
  unfold PatchGenerator._get_random_tissue_patch.
  destruct (read_random_tissue_patch _ _ _ _) as [e| |img] eqn:Hr; simpl.
  - rewrite (Hread _ _ _ _ _ Hr).
    exists 1%nat, self, (PatchGenerator.open_slide p w).
    repeat split; simpl; lia.
  - exists 1%nat, self, (PatchGenerator.open_slide p w).
    repeat split; simpl; lia.
  - unfold compose_and_save, _compose_path, _save. simpl.
    destruct (image_save _ _ _) as [e|] eqn:Hs; simpl.
    + rewrite (Hsave _ _ _ _ Hs).
      eexists 1%nat, _, _. repeat split; simpl; lia.
    + match goal with |- context [draws k _ ?s ?v] =>
        destruct (IH s v Hmode) as (c & self' & w' & -> & Hc & Ho & Hg & Hf)
      end.
      exists (S c), self', w'. simpl in *.
      repeat split; try assumption; try lia.
      rewrite Ho, <- app_assoc. reflexivity.
Qed.

(** X1.  The whole run on plain paths read for tissue patches, when the
    libraries raise nothing outside [Exception]: it ends normally, the slides
    are opened in list order, and each is opened at most [n] times. *)
Lemma run_on_paths (paths : list string) (self : t) (n : Z) (w : World) :
  slide_files self = map SlidePath paths ->
  PatchGenerator.random_tissue_patch (patch_gen self) = true ->
  (forall j f l s e,
      read_random_tissue_patch j f l s = TissueError e -> is_Exception e = true) ->
  (forall j img path e, image_save j img path = Some e -> is_Exception e = true) ->
  exists (counts : list nat) (self' : t) (w' : World),
    run self n w = (Ok tt, self', w')
    /\ length counts = length paths
    /\ Forall (fun c => (c <= Z.to_nat n)%nat) counts
    /\ opened w'
       = (opened w ++ concat (zip_with (fun c p => replicate c p) counts paths))%list.
Proof.
  intros Hfiles Hmode Hread Hsave. unfold run. rewrite Hfiles. clear Hfiles.
  enough (exists counts self' w',
             slides_loop (map SlidePath paths) n self w = (None, self', w')
             /\ length counts = length paths
             /\ Forall (fun c => (c <= Z.to_nat n)%nat) counts
             /\ opened w'
                = (opened w
                   ++ concat (zip_with (fun c p => replicate c p) counts paths))%list)
    as (counts & self' & w' & -> & Hrest) by eauto.
  revert self w Hmode. induction paths as [|p paths IH]; intros self w Hmode.
  { exists [], self, w. simpl. rewrite app_nil_r. repeat split; constructor. }
  simpl.
  destruct (draws_on_path (Z.to_nat n) p self w Hmode Hread Hsave)
    as (c & self1 & w1 & -> & Hc & Ho & Hg & _).
  rewrite <- Hg in Hmode.
  destruct (IH self1 w1 Hmode) as (counts & self' & w' & -> & Hlen & Hall & Ho').
  exists (c :: counts), self', w'. simpl.
  repeat split; [congruence|constructor; assumption|].
  rewrite Ho', Ho, <- app_assoc. reflexivity.
Qed.

(** C8, on a list of (slide, annotation) pairs.  [run] stops at the first
    slide with a [TypeError], before any draw: the progress message applies
    [os.path.basename] to the pair.  No slide is opened, nothing is
    saved. *)
Theorem run_rejects_slide_pairs (wsi_file xml_file target_dir : string)
    (rest : list slide_entry) (patch_size : Z * Z) (slide_level : Z)
    (get_random_tissue_patch : bool) (n : Z) (w : World) :
  let self_w := __init__ (SlidePair wsi_file xml_file :: rest) target_dir
                  patch_size slide_level get_random_tissue_patch w in
  run (fst self_w) n (snd self_w) = (Raise TypeError, fst self_w, snd self_w).
Proof.
  intros self_w. subst self_w. unfold __init__.
  destruct (negb _); reflexivity.
Qed.

End Patcher.

(** A patcher in the concrete environment, after a patch of a TCGA slide has
    been drawn. *)
Example compose_path_shape_example :
  let self :=
    @OfflinePatcher.set_patch_filename demo_environment (Some "pixels"%string)
      (Some "TCGA-02-0001-01Z-00-DX1.83fce43e.svs"%string)
      (fst (OfflinePatcher.__init__ [SlidePath "TCGA-02-0001-01Z-00-DX1.83fce43e.svs"]
              "patches" (299, 299) 0 true demo_world)) in
  (exists ext, "TCGA-02-0001-01Z-00-DX1.83fce43e.svs"%string
               = String.append "TCGA-02-0001-01Z-00-DX1" ext)
  /\ String.length "3f2a9" = 5%nat
  /\ is_hex "3f2a9" = true
  /\ fst (OfflinePatcher._compose_path self demo_world)
     = Ok "patches/TCGA-02-0001-01Z-00-DX1_3f2a9.png"%string.
Proof.
  intros self.
  exact (proj1 (@compose_path_shape demo_environment) self demo_world
           "TCGA-02-0001-01Z-00-DX1.83fce43e.svs"%string
           eq_refl eq_refl eq_refl).
Qed.

(** ** Worked examples *)

Example float_of_str_examples :
  map float_of_str ["0.1"; "1e23"; "1e400"; "1_000"; "-0"; " 2.5 "; "nan"; "abc"; "1__0"]%string
  = [Ok (S754_finite false 7205759403792794 (-56));
     Ok (S754_finite false 5960464477539062 24);
     Ok (S754_infinity false);
     Ok (S754_finite false 8796093022208000 (-43));
     Ok (S754_zero true);
     Ok (S754_finite false 5629499534213120 (-51));
     Ok S754_nan;
     Raise ValueError;
     Raise ValueError].
Proof. vm_compute. reflexivity. Qed.

Example splitext_examples :
  map os_path.splitext ["a.b.c"; ".bashrc"; "x/.a.b"; "a.b/c"; "..."]%string
  = [("a.b", ".c"); (".bashrc", ""); ("x/.a", ".b"); ("a.b/c", ""); ("...", "")]%string.
Proof. vm_compute. reflexivity. Qed.

Example join_examples :
  (os_path.join "d" "f", os_path.join "d/" "f", os_path.join "" "f",
   os_path.join "d" "/f")
  = ("d/f", "d/f", "f", "/f")%string.
Proof. vm_compute. reflexivity. Qed.

(** Two draws per slide over three paths, the second of which cannot be
    read: the slides are visited in order, the unreadable one is given up at
    its first draw, and four patches are saved. *)
Example run_on_paths_example :
  let self_w := OfflinePatcher.__init__
                  [SlidePath "good.a1.svs"; SlidePath "bad.svs"; SlidePath "ok.svs"]
                  "patches" (299, 299) 0 true demo_world in
  let out := OfflinePatcher.run (fst self_w) 2 (snd self_w) in
  fst (fst out) = Ok tt
  /\ opened (snd out)
     = ["good.a1.svs"; "good.a1.svs"; "bad.svs"; "ok.svs"; "ok.svs"]%string
  /\ map fst (saved (snd out))
     = ["patches/good_3f2a9.png"; "patches/good_3f2a9.png";
        "patches/ok_3f2a9.png"; "patches/ok_3f2a9.png"]%string.
Proof. vm_compute. repeat split. Qed.

(** The same run on one (slide, annotation) pair. *)
Example run_on_pair_example :
  let self_w := OfflinePatcher.__init__ [SlidePair "slide.svs" "slide.xml"]
                  "patches" (299, 299) 0 false demo_world in
  let out := OfflinePatcher.run (fst self_w) 1 (snd self_w) in
  fst (fst out) = Raise TypeError
  /\ opened (snd out) = []
  /\ saved (snd out) = [].
Proof. vm_compute. repeat split. Qed.


(** ** [OfflinePatcher]: what a run writes *)

Section PatcherWrites.
Context `{Environment}.
Import OfflinePatcher.

Local Open Scope string_scope.

Lemma compose_path_eq (self : t) (w : World) (name : string) :
  filename self = Some name ->
  _compose_path self w
  = (Ok (composed_path (target_dir self) (file_format self) name
           (uuid4_hex (tick w))), next_tick w).
Proof.
  intros Hname. unfold _compose_path, composed_path. rewrite Hname.
  rewrite append_assoc. reflexivity.
Qed.

(** [_compose_path] followed by [_save] writes one image or none, and
    touches nothing else but the clock. *)
Lemma compose_and_save_cases (self : t) (w w' : World) (r : res unit) :
  compose_and_save self w = (r, w') ->
  opened w' = opened w /\ dirs w' = dirs w
  /\ (((exists e, r = Raise e) /\ saved w' = saved w)
      \/ (r = Ok tt
          /\ exists name img,
               filename self = Some name /\ patch self = Some img
               /\ saved w'
                  = (saved w
                     ++ [(composed_path (target_dir self) (file_format self)
                            name (uuid4_hex (tick w)), img)])%list)).
Proof.
  unfold compose_and_save.
  destruct (filename self) as [name|] eqn:Hname.
  - rewrite (compose_path_eq _ _ _ Hname). unfold _save.
    destruct (patch self) as [img|] eqn:Himg.
    + simpl. destruct (image_save _ _ _) as [e|]; intros [= <- <-]; simpl;
        repeat split; [left; eauto|right].
      split; [reflexivity|]. exists name, img. auto.
    + intros [= <- <-]. simpl. repeat split. left. eauto.
  - unfold _compose_path. rewrite Hname. intros [= <- <-]. simpl.
    repeat split. left. eauto.
Qed.

(** The two getters never write: they leave the world as it is or open one
    slide. *)
Lemma getter_frame (g : PatchGenerator.t) (slide_file : slide_entry)
    (w w1 : World) (r : res PatchGenerator.result) :
  (if PatchGenerator.random_tissue_patch g
   then PatchGenerator._get_random_tissue_patch g slide_file w
   else PatchGenerator._get_random_patch g slide_file w) = (r, w1) ->
  w1 = w \/ exists wsi_file, w1 = PatchGenerator.open_slide wsi_file w.
Proof.
  destruct (PatchGenerator.random_tissue_patch g).
  - unfold PatchGenerator._get_random_tissue_patch.
    destruct (read_random_tissue_patch _ _ _ _); intros [= <- <-]; eauto.
  - unfold PatchGenerator._get_random_patch.
    destruct (PatchGenerator.unpack_slide slide_file) as [[wsi_file xml_file]|];
      [|intros [= <- <-]; auto].
    destruct (read_random_patch _ _ _ _ _); [| |destruct (PatchGenerator.return_annotation g)];
      intros [= <- <-]; eauto.
Qed.

(** One draw of [run]: the configuration stays, no directory is made, and at
    most one image is written, exactly when the draw succeeds. *)
Lemma draw_and_save_inv (slide_file : slide_entry) (self self' : t)
    (w w' : World) (r : res unit) :
  draw_and_save slide_file self w = (r, self', w') ->
  config self' = config self /\ dirs w' = dirs w
  /\ (((exists e, r = Raise e) /\ saved w' = saved w)
      \/ (r = Ok tt
          /\ exists entry,
               saved w' = (saved w ++ [entry])%list
               /\ composed_entry (target_dir self) (file_format self) entry)).
Proof.
  unfold draw_and_save.
  destruct (if PatchGenerator.random_tissue_patch (patch_gen self) then _ else _)
    as [r1 w1] eqn:Hget.
  assert (Hw1 : saved w1 = saved w /\ dirs w1 = dirs w).
  { destruct (getter_frame _ _ _ _ _ Hget) as [-> | [f ->]]; auto. }
  destruct Hw1 as [Hs1 Hd1].
  destruct (r1 ≫= unpack_result) as [[p name]|e] eqn:Hr.
  - destruct (compose_and_save _ w1) as [r2 w2] eqn:Hcs. intros [= <- <- <-].
    destruct (compose_and_save_cases _ _ _ _ Hcs) as (_ & Hd2 & Hcase).
    split; [reflexivity|]. split; [congruence|].
    destruct Hcase as [[He Hs2] | [-> (nm & img & Hn & Hp & Hs2)]].
    + left. split; [exact He|congruence].
    + right. split; [reflexivity|]. eexists. split.
      * rewrite Hs2, Hs1. reflexivity.
      * exists nm, (tick w1). reflexivity.
  - intros [= <- <- <-]. repeat split; try assumption. left. eauto.
Qed.

(** The draws for one slide write at most [k] images. *)
Lemma draws_inv (k : nat) (slide_file : slide_entry) (self self' : t)
    (w w' : World) (o : option exn) :
  draws k slide_file self w = (o, self', w') ->
  config self' = config self /\ dirs w' = dirs w
  /\ exists new,
       saved w' = (saved w ++ new)%list
       /\ (length new <= k)%nat
       /\ Forall (composed_entry (target_dir self) (file_format self)) new.
Proof.
  revert self w. induction k as [|k IH]; intros self w; simpl.
  { intros [= <- <- <-]. repeat split. exists []. rewrite app_nil_r.
    repeat split; [simpl; lia|constructor]. }
  destruct (draw_and_save slide_file self w) as [[r self1] w1] eqn:Hd.
  destruct (draw_and_save_inv _ _ _ _ _ _ Hd) as (Hc1 & Hd1 & Hcase).
  assert (Hdir : target_dir self1 = target_dir self
                 /\ file_format self1 = file_format self).
  { unfold config in Hc1. split; congruence. }
  destruct Hdir as [Htd Hff].
  destruct r as [u|e].
  - intros Hrest. destruct (IH _ _ Hrest) as (Hc2 & Hd2 & new & Hs2 & Hlen & Hall).
    split; [congruence|]. split; [congruence|].
    destruct Hcase as [[[e He] _] | [_ (entry & Hs1 & Hent)]]; [discriminate|].
    exists (entry :: new). rewrite Hs2, Hs1, <- app_assoc.
    repeat split; [simpl; lia|]. constructor; [exact Hent|].
    rewrite Htd, Hff in Hall. exact Hall.
  - assert (saved w1 = saved w) as Hs1.
    { destruct Hcase as [[_ Hs] | [[=] _]]. exact Hs. }
    destruct (is_Exception e); intros [= <- <- <-];
      (split; [exact Hc1|]; split; [exact Hd1|]; exists [];
       rewrite app_nil_r; repeat split; [exact Hs1|simpl; lia|constructor]).
Qed.

(** The loop over the slides writes at most [n] images for each slide. *)
Lemma slides_loop_inv (slides : list slide_entry) (n : Z) (self self' : t)
    (w w' : World) (o : option exn) :
  slides_loop slides n self w = (o, self', w') ->
  config self' = config self /\ dirs w' = dirs w
  /\ exists new,
       saved w' = (saved w ++ new)%list
       /\ (length new <= Z.to_nat n * length slides)%nat
       /\ Forall (composed_entry (target_dir self) (file_format self)) new.
Proof.
  revert self w. induction slides as [|slide_file rest IH]; intros self w; simpl.
  { intros [= <- <- <-]. repeat split. exists []. rewrite app_nil_r.
    repeat split; [simpl; lia|constructor]. }
  destruct (basename_of_entry slide_file).
  2:{ intros [= <- <- <-]. repeat split. exists []. rewrite app_nil_r.
      repeat split; [simpl; lia|constructor]. }
  destruct (draws (Z.to_nat n) slide_file self w) as [[o1 self1] w1] eqn:Hd.
  destruct (draws_inv _ _ _ _ _ _ _ Hd) as (Hc1 & Hd1 & new1 & Hs1 & Hlen1 & Hall1).
  assert (Hdir : target_dir self1 = target_dir self
                 /\ file_format self1 = file_format self).
  { unfold config in Hc1. split; congruence. }
  destruct Hdir as [Htd Hff].
  destruct o1 as [e|].
  - intros [= <- <- <-]. split; [exact Hc1|]. split; [exact Hd1|].
    exists new1. repeat split; [exact Hs1|nia|exact Hall1].
  - intros Hrest.
    destruct (IH _ _ Hrest) as (Hc2 & Hd2 & new2 & Hs2 & Hlen2 & Hall2).
    split; [congruence|]. split; [congruence|].
    exists (new1 ++ new2)%list. rewrite Hs2, Hs1, <- app_assoc.
    repeat split; [rewrite length_app; nia|].
    apply Forall_app. split; [exact Hall1|].
    rewrite Htd, Hff in Hall2. exact Hall2.
Qed.

(** The whole of [run], the interrupt handler included. *)
Lemma run_inv (self self' : t) (n : Z) (w w' : World) (r : res unit) :
  run self n w = (r, self', w') ->
  config self' = config self /\ dirs w' = dirs w
  /\ exists new,
       saved w' = (saved w ++ new)%list
       /\ (length new <= Z.to_nat n * length (slide_files self) + 1)%nat
       /\ Forall (composed_entry (target_dir self) (file_format self)) new.
Proof.
  unfold run.
  destruct (slides_loop (slide_files self) n self w) as [[o self1] w1] eqn:Hl.
  destruct (slides_loop_inv _ _ _ _ _ _ _ Hl) as (Hc1 & Hd1 & new1 & Hs1 & Hlen1 & Hall1).
  assert (Hplain :
    config self1 = config self /\ dirs w1 = dirs w
    /\ exists new,
         saved w1 = (saved w ++ new)%list
         /\ (length new <= Z.to_nat n * length (slide_files self) + 1)%nat
         /\ Forall (composed_entry (target_dir self) (file_format self)) new).
  { split; [exact Hc1|]. split; [exact Hd1|].
    exists new1. repeat split; [exact Hs1|lia|exact Hall1]. }
  destruct o as [e|].
  2:{ intros [= <- <- <-]. exact Hplain. }
  destruct e; try (intros [= <- <- <-]; exact Hplain).
  destruct (compose_and_save self1 w1) as [r2 w2] eqn:Hcs. intros [= <- <- <-].
  destruct (compose_and_save_cases _ _ _ _ Hcs) as (_ & Hd2 & Hcase).
  split; [exact Hc1|]. split; [congruence|].
  destruct Hcase as [[_ Hs2] | [_ (nm & img & Hn & Hp & Hs2)]].
  - exists new1. repeat split; [congruence|lia|exact Hall1].
  - eexists (new1 ++ [_])%list. rewrite Hs2, Hs1, <- app_assoc.
    repeat split; [rewrite length_app; simpl; lia|].
    apply Forall_app. split; [exact Hall1|]. constructor; [|constructor].
    exists nm, (tick w1). simpl.
    unfold config in Hc1. replace (target_dir self) with (target_dir self1) by congruence.
    replace (file_format self) with (file_format self1) by congruence.
    reflexivity.
Qed.

End PatcherWrites.

(** ** [OfflinePatcher.run]: further properties *)

Section RunProperties.
Context `{Environment}.
Import OfflinePatcher.

Local Open Scope string_scope.

(** X3.  Whatever the libraries do, [run] only adds to the images written,
    and every image it adds goes to a path made by [_compose_path] from the
    patcher's target directory and file format. *)
Theorem run_writes_composed_paths (self : t) (n : Z) (w : World) :
  exists new,
    saved (snd (run self n w)) = (saved w ++ new)%list
    /\ Forall (composed_entry (target_dir self) (file_format self)) new.
Proof.
  destruct (run self n w) as [[r self'] w'] eqn:Hrun.
  destruct (run_inv _ _ _ _ _ _ Hrun) as (_ & _ & new & Hs & _ & Hall).
  exists new. auto.
Qed.

(** X4.  [run] writes at most [n] images for each slide of the list, and one
    more when it is interrupted. *)
Theorem run_writes_bounded (self : t) (n : Z) (w : World) :
  (length (saved (snd (run self n w)))
   <= length (saved w) + Z.to_nat n * length (slide_files self) + 1)%nat.
Proof.
  destruct (run self n w) as [[r self'] w'] eqn:Hrun.
  destruct (run_inv _ _ _ _ _ _ Hrun) as (_ & _ & new & Hs & Hlen & _).
  simpl. rewrite Hs, length_app. lia.
Qed.

(** X5.  [run] changes nothing of the patcher but [filename] and [patch]: in
    particular the cursor of its generator stays where it was; and it
    creates no directory. *)
Theorem run_keeps_config (self : t) (n : Z) (w : World) :
  config (snd (fst (run self n w))) = config self
  /\ dirs (snd (run self n w)) = dirs w.
Proof.
  destruct (run self n w) as [[r self'] w'] eqn:Hrun.
  destruct (run_inv _ _ _ _ _ _ Hrun) as (Hc & Hd & _). auto.
Qed.

Lemma unpack_slide_path (p : string) :
  String.length p <> 2%nat ->
  PatchGenerator.unpack_slide (SlidePath p) = Raise ValueError.
Proof.
  destruct p as [|a [|b [|c p]]]; simpl; intros Hlen; try reflexivity.
  contradiction.
Qed.

(** X6.  With the default [get_random_tissue_patch=False], [run] on a list
    of plain paths does nothing: unpacking a path into (slide, annotation)
    fails at the first draw of every slide (unless the path has exactly two
    characters), so no slide is opened and nothing is written. *)
Theorem run_annotation_mode_on_paths (paths : list string) (self : t) (n : Z)
    (w : World) :
  slide_files self = map SlidePath paths ->
  PatchGenerator.random_tissue_patch (patch_gen self) = false ->
  Forall (fun p => String.length p <> 2%nat) paths ->
  run self n w = (Ok tt, self, w).
Proof.
  intros Hfiles Hmode Hlen. unfold run. rewrite Hfiles. clear Hfiles.
  assert (Hdraws : forall k p, String.length p <> 2%nat ->
             draws k (SlidePath p) self w = (None, self, w)).
  { intros [|k] p Hp; [reflexivity|]. simpl. unfold draw_and_save.
    rewrite Hmode. unfold PatchGenerator._get_random_patch.
    rewrite (unpack_slide_path p Hp). reflexivity. }
  enough (slides_loop (map SlidePath paths) n self w = (None, self, w)) as ->
    by reflexivity.
  induction Hlen as [|p paths Hp _ IH]; [reflexivity|].
  simpl. rewrite (Hdraws _ _ Hp). exact IH.
Qed.

(** X7.  An interrupt that arrives before any patch has been drawn makes
    [run] fail with a [TypeError]: the handler calls [_compose_path] while
    [self.filename] is still [None]. *)
Theorem run_interrupted_before_first_patch (p : string)
    (rest : list slide_entry) (self : t) (n : Z) (w : World) :
  slide_files self = SlidePath p :: rest ->
  0 < n ->
  filename self = None ->
  PatchGenerator.random_tissue_patch (patch_gen self) = true ->
  read_random_tissue_patch (tick w) p
    (PatchGenerator.slide_level (patch_gen self))
    (PatchGenerator.patch_size (patch_gen self))
  = TissueError KeyboardInterrupt ->
  run self n w
  = (Raise TypeError, self, next_tick (PatchGenerator.open_slide p w)).
Proof.
  intros Hfiles Hn Hname Hmode Hread. unfold run. rewrite Hfiles. simpl.
  destruct (Z.to_nat n) as [|k] eqn:Hk; [lia|]. simpl.
  unfold draw_and_save. rewrite Hmode.
  unfold PatchGenerator._get_random_tissue_patch. rewrite Hread. simpl.
  unfold compose_and_save, _compose_path. rewrite Hname. reflexivity.
Qed.

End RunProperties.

Lemma run_on_paths_witness :
  exists (counts : list nat) self' w',
    OfflinePatcher.run
      (fst (OfflinePatcher.__init__ [SlidePath "good.svs"; SlidePath "bad.svs"]
              "patches" (299, 299) 0 true demo_world))
      2
      (snd (OfflinePatcher.__init__ [SlidePath "good.svs"; SlidePath "bad.svs"]
              "patches" (299, 299) 0 true demo_world))
    = (Ok tt, self', w')
    /\ length counts = length ["good.svs"; "bad.svs"]%string
    /\ Forall (fun c => (c <= Z.to_nat 2)%nat) counts
    /\ opened w'
       = (opened (snd (OfflinePatcher.__init__
                         [SlidePath "good.svs"; SlidePath "bad.svs"]
                         "patches" (299, 299) 0 true demo_world))
          ++ concat (zip_with (fun c p => replicate c p) counts
                       ["good.svs"; "bad.svs"]%string))%list.
Proof.
  apply (@run_on_paths demo_environment ["good.svs"; "bad.svs"]%string).
  - reflexivity.
  - reflexivity.
  - intros j f l s e Hread.
    cbv [read_random_tissue_patch demo_environment] in Hread.
    destruct (startswith "bad" f); inversion Hread. reflexivity.
  - intros j img path e Hsave.
    cbv [image_save demo_environment] in Hsave. discriminate.
Defined.

Lemma run_annotation_mode_on_paths_witness :
  OfflinePatcher.run
    (fst (OfflinePatcher.__init__ [SlidePath "a.svs"; SlidePath "b.svs"]
            "patches" (299, 299) 0 false demo_world))
    3
    (snd (OfflinePatcher.__init__ [SlidePath "a.svs"; SlidePath "b.svs"]
            "patches" (299, 299) 0 false demo_world))
  = (Ok tt,
     fst (OfflinePatcher.__init__ [SlidePath "a.svs"; SlidePath "b.svs"]
            "patches" (299, 299) 0 false demo_world),
     snd (OfflinePatcher.__init__ [SlidePath "a.svs"; SlidePath "b.svs"]
            "patches" (299, 299) 0 false demo_world)).
Proof.
  apply (@run_annotation_mode_on_paths demo_environment ["a.svs"; "b.svs"]%string).
  - reflexivity.
  - reflexivity.
  - repeat constructor; discriminate.
Defined.

Lemma run_interrupted_before_first_patch_witness :
  OfflinePatcher.run
    (fst (OfflinePatcher.__init__ [SlidePath "s.svs"] "patches" (299, 299) 0 true
            interrupting_world))
    1
    (snd (OfflinePatcher.__init__ [SlidePath "s.svs"] "patches" (299, 299) 0 true
            interrupting_world))
  = (Raise TypeError,
     fst (OfflinePatcher.__init__ [SlidePath "s.svs"] "patches" (299, 299) 0 true
            interrupting_world),
     OfflinePatcher.next_tick
       (PatchGenerator.open_slide "s.svs"
          (snd (OfflinePatcher.__init__ [SlidePath "s.svs"] "patches" (299, 299) 0
                  true interrupting_world)))).
Proof.
  apply (@run_interrupted_before_first_patch interrupting_environment "s.svs" []).
  - reflexivity.
  - lia.
  - reflexivity.
  - reflexivity.
  - reflexivity.
Defined.

(** ** [PatchGenerator.__next__] and [_make_patch]: further properties *)

Section GeneratorProperties.
Context `{Environment}.
Import PatchGenerator.

Lemma fetch_frame (g : t) (w w1 : World) (r : res result) :
  fetch g w = (r, w1) ->
  w1 = w \/ exists wsi_file, w1 = open_slide wsi_file w.
Proof.
  unfold fetch. destruct (getitem _ _) as [selected_slide|e].
  - apply getter_frame.
  - intros [= <- <-]. auto.
Qed.

Lemma loop_body_frame (g g' : t) (w w1 : World) (o : option (res result)) :
  loop_body g w = (o, g', w1) ->
  w1 = w \/ exists wsi_file, w1 = open_slide wsi_file w.
Proof.
  unfold loop_body. destruct (fetch g w) as [[r|e] w2] eqn:Hf;
    apply fetch_frame in Hf.
  - destruct (is_invalid r); intros [= <- <- <-]; exact Hf.
  - destruct (is_IndexError e); [|destruct (is_Exception e)];
      intros [= <- <- <-]; exact Hf.
Qed.

Lemma loop_body_returns (g g' : t) (w w' : World) (x : result) :
  loop_body g w = (Some (Ok x), g', w') ->
  fetch g w = (Ok x, w') /\ is_invalid x = false /\ g' = set_i (i g + 1) g.
Proof.
  unfold loop_body. destruct (fetch g w) as [[r|e] w1].
  - destruct (is_invalid r) eqn:Hi; intros [= <- <- <-]. auto.
  - destruct (is_IndexError e); [|destruct (is_Exception e)]; discriminate.
Qed.

Lemma skipped_until_set_i (g : t) (c j k : Z) (w w' : World) :
  skipped_until (set_i c g) j k w w' -> skipped_until g j k w w'.
Proof.
  induction 1 as [j w | j k w w1 w' r Hj Hf Hr _ IH].
  - apply skipped_until_here.
  - eapply skipped_until_step; eauto.
Qed.

(** X8.  When [__next__] returns a result, it is the patch of the first
    slide, from the cursor on, whose fetch yields one: every slide before it
    has been fetched to no avail, and the cursor stands just behind it. *)
Theorem next_returns_first_patch (g g' : t) (w w' : World) (r : result) :
  __next__ g w = (Ok r, g', w') ->
  exists w1,
    skipped_until g (i g) (i g' - 1) w w1
    /\ fetch (set_i (i g' - 1) g) w1 = (Ok r, w')
    /\ is_invalid r = false
    /\ i g < i g' <= n g.
Proof.
  revert g w r g' w'.
  apply (__next___elim (fun g w out => forall r g' w', out = (Ok r, g', w') ->
    exists w1,
      skipped_until g (i g) (i g' - 1) w w1
      /\ fetch (set_i (i g' - 1) g) w1 = (Ok r, w')
      /\ is_invalid r = false
      /\ i g < i g' <= n g)).
  - intros g Hlt w _ r g' w' [=].
  - intros g Hlt w r0 g1 w1 Hbody _ _ r g' w' [= -> <- <-].
    apply Z.ltb_lt in Hlt.
    destruct (loop_body_returns _ _ _ _ _ Hbody) as (Hf & Hi & ->). simpl.
    exists w. replace (i g + 1 - 1) with (i g) by lia.
    rewrite set_i_id. repeat split; try assumption; try lia.
    apply skipped_until_here.
  - intros g Hlt w g1 w1 Hbody IH _ _ r g' w' Hout.
    apply Z.ltb_lt in Hlt.
    destruct (loop_body_inv _ _ _ _ _ Hbody)
      as [(-> & Hnone & _) | (_ & e & [=] & _)].
    destruct (Hnone eq_refl) as (r1 & Hf & Hr).
    destruct (IH _ _ _ Hout) as (w2 & Hsk & Hf' & Hi & Hrange). simpl in *.
    exists w2. repeat split; try assumption; try lia.
    apply skipped_until_set_i in Hsk.
    eapply skipped_until_step; [lia| |exact Hr|exact Hsk].
    rewrite set_i_id. exact Hf.
Qed.

(** X9.  An exception outside [Exception] (a keyboard interrupt, say) raised
    while the slide under the cursor is fetched leaves [__next__] as it is,
    and the cursor does not move: the next call fetches the same slide. *)
Theorem next_propagates_base_exception (g : t) (w w1 : World) (e : exn) :
  i g < n g ->
  fetch g w = (Raise e, w1) ->
  is_Exception e = false ->
  __next__ g w = (Raise e, g, w1).
Proof.
  intros Hlt Hf He. rewrite (next_unfold g w).
  apply Z.ltb_lt in Hlt. rewrite Hlt. unfold loop_body. rewrite Hf, He.
  destruct e; try discriminate; reflexivity.
Qed.

(** What a call of [__next__] does to the world. *)
Lemma next_world (g : t) (w : World) :
  forall r g' w', __next__ g w = (r, g', w') ->
  exists more,
    opened w' = (opened w ++ more)%list
    /\ (length more <= Z.to_nat (n g - i g))%nat
    /\ tick w' = (tick w + length more)%nat
    /\ saved w' = saved w
    /\ dirs w' = dirs w.
Proof.
  revert g w.
  apply (__next___elim (fun g w out => forall r g' w', out = (r, g', w') ->
    exists more,
      opened w' = (opened w ++ more)%list
      /\ (length more <= Z.to_nat (n g - i g))%nat
      /\ tick w' = (tick w + length more)%nat
      /\ saved w' = saved w
      /\ dirs w' = dirs w)).
  - intros g Hlt w _ r g' w' [= <- <- <-]. exists []. rewrite app_nil_r.
    repeat split; simpl; lia.
  - intros g Hlt w r0 g1 w1 Hbody _ _ r g' w' [= <- <- <-].
    apply Z.ltb_lt in Hlt.
    destruct (loop_body_frame _ _ _ _ _ Hbody) as [-> | [f ->]].
    + exists []. rewrite app_nil_r. repeat split; simpl; lia.
    + exists [f]. simpl. repeat split; lia.
  - intros g Hlt w g1 w1 Hbody IH _ _ r g' w' Hout.
    destruct (IH _ _ _ Hout) as (more & Ho & Hlen & Ht & Hs & Hd).
    apply Z.ltb_lt in Hlt.
    destruct (loop_body_inv _ _ _ _ _ Hbody)
      as [(-> & _ & _) | (_ & e & [=] & _)]. simpl in Hlen.
    destruct (loop_body_frame _ _ _ _ _ Hbody) as [-> | [f ->]].
    + exists more. repeat split; try assumption. lia.
    + exists (f :: more). simpl in *. rewrite Ho, <- app_assoc.
      repeat split; try assumption; lia.
Qed.

(** X10.  [__next__] writes no image and makes no directory; it opens at most
    one slide for each position from the cursor to the end of the list, and
    does nothing else to the world. *)
Theorem next_only_opens_slides (g : t) (w : World) :
  exists more,
    opened (snd (__next__ g w)) = (opened w ++ more)%list
    /\ (length more <= Z.to_nat (n g - i g))%nat
    /\ tick (snd (__next__ g w)) = (tick w + length more)%nat
    /\ saved (snd (__next__ g w)) = saved w
    /\ dirs (snd (__next__ g w)) = dirs w.
Proof.
  destruct (__next__ g w) as [[r g'] w'] eqn:Hout.
  exact (next_world g w r g' w' Hout).
Qed.

Import OfflinePatcher.

(** X11.  [_make_patch] either succeeds, and then it has written exactly one
    image, under a path made by [_compose_path], and moved the generator's
    cursor forward; or it raises, and then it has written nothing. *)
Theorem make_patch_writes (self : OfflinePatcher.t) (w : World) :
  (fst (fst (_make_patch self w)) = Ok tt
   /\ (exists entry,
          saved (snd (_make_patch self w)) = (saved w ++ [entry])%list
          /\ composed_entry (target_dir self) (file_format self) entry)
   /\ i (patch_gen self) < i (patch_gen (snd (fst (_make_patch self w)))))
  \/ ((exists e, fst (fst (_make_patch self w)) = Raise e)
      /\ saved (snd (_make_patch self w)) = saved w).
Proof.
  unfold _make_patch.
  destruct (__next__ (patch_gen self) w) as [[r g'] w1] eqn:Hnext.
  destruct (next_world _ _ _ _ _ Hnext) as (_ & _ & _ & _ & Hs1 & _).
  destruct r as [r|e]; [|right; simpl; eauto].
  destruct (next_inv _ _ _ _ _ Hnext) as (_ & _ & Hadv).
  destruct (unpack_result r) as [[p name]|e]; [|right; simpl; eauto].
  destruct (compose_and_save _ w1) as [r2 w2] eqn:Hcs. simpl.
  destruct (compose_and_save_cases _ _ _ _ Hcs)
    as (_ & _ & [[He Hs2] | [-> (nm & img & Hn & Hp & Hs2)]]).
  - right. split; [exact He|congruence].
  - left. split; [reflexivity|]. split; [|exact Hadv].
    eexists. split; [rewrite Hs2, Hs1; reflexivity|].
    exists nm, (tick w1). reflexivity.
Qed.

(** X12.  In annotation mode a slide without labels is not skipped: the
    generator hands out the message ['No tumor annotations found.'], which
    [_make_patch] cannot unpack into a patch and a file name, so it raises
    [ValueError]; the cursor has moved past the slide. *)
Theorem make_patch_no_labels (self : OfflinePatcher.t) (w : World)
    (selected_slide : slide_entry) (wsi_file xml_file : string) :
  random_tissue_patch (patch_gen self) = false ->
  i (patch_gen self) < n (patch_gen self) ->
  getitem (PatchGenerator.slide_files (patch_gen self)) (i (patch_gen self))
  = Ok selected_slide ->
  unpack_slide selected_slide = Ok (wsi_file, xml_file) ->
  read_random_patch (tick w) wsi_file xml_file
    (PatchGenerator.slide_level (patch_gen self))
    (PatchGenerator.patch_size (patch_gen self)) = NoLabels ->
  _make_patch self w
  = (Raise ValueError,
     set_patch_gen (set_i (i (patch_gen self) + 1) (patch_gen self)) self,
     open_slide wsi_file w).
Proof.
  intros Hmode Hlt Hget Hunpack Hread. unfold _make_patch.
  rewrite next_unfold. apply Z.ltb_lt in Hlt. rewrite Hlt.
  unfold loop_body, fetch. rewrite Hget, Hmode.
  unfold _get_random_patch. rewrite Hunpack, Hread. reflexivity.
Qed.

End GeneratorProperties.

Lemma next_returns_first_patch_witness :
  let g := PatchGenerator.__init__ [SlidePath "bad.svs"; SlidePath "good.svs"]
             0 true (299, 299) false in
  let w' := PatchGenerator.open_slide "good.svs"
              (PatchGenerator.open_slide "bad.svs" demo_world) in
  exists w1,
    skipped_until g (PatchGenerator.i g) (PatchGenerator.i (PatchGenerator.set_i 2 g) - 1)
      demo_world w1
    /\ PatchGenerator.fetch
         (PatchGenerator.set_i (PatchGenerator.i (PatchGenerator.set_i 2 g) - 1) g) w1
       = (Ok (@PatchGenerator.PatchName demo_environment "good.svs" "good.svs"), w')
    /\ PatchGenerator.is_invalid
         (@PatchGenerator.PatchName demo_environment "good.svs" "good.svs") = false
    /\ PatchGenerator.i g < PatchGenerator.i (PatchGenerator.set_i 2 g)
       <= PatchGenerator.n g.
Proof.
  intros g w'.
  apply (@next_returns_first_patch demo_environment g (PatchGenerator.set_i 2 g)
           demo_world w').
  rewrite !next_unfold. reflexivity.
Defined.

Lemma next_propagates_base_exception_witness :
  let g := PatchGenerator.__init__ [SlidePath "s.svs"] 0 true (299, 299) false in
  PatchGenerator.__next__ g interrupting_world
  = (Raise KeyboardInterrupt, g, PatchGenerator.open_slide "s.svs" interrupting_world).
Proof.
  intros g.
  apply (@next_propagates_base_exception interrupting_environment).
  - reflexivity.
  - reflexivity.
  - reflexivity.
Defined.

Lemma make_patch_no_labels_witness :
  let self_w := OfflinePatcher.__init__ [SlidePair "s.svs" "s.xml"] "patches"
                  (299, 299) 0 false interrupting_world in
  OfflinePatcher._make_patch (fst self_w) (snd self_w)
  = (Raise ValueError,
     OfflinePatcher.set_patch_gen
       (PatchGenerator.set_i
          (PatchGenerator.i (OfflinePatcher.patch_gen (fst self_w)) + 1)
          (OfflinePatcher.patch_gen (fst self_w)))
       (fst self_w),
     PatchGenerator.open_slide "s.svs" (snd self_w)).
Proof.
  intros self_w.
  apply (@make_patch_no_labels interrupting_environment (fst self_w) (snd self_w)
           (SlidePair "s.svs" "s.xml") "s.svs" "s.xml").
  - reflexivity.
  - reflexivity.
  - reflexivity.
  - reflexivity.
  - reflexivity.
Defined.

(** ** [OfflinePatcher]: where the written paths come from *)

Section PatcherSources.
Context `{Environment}.
Import OfflinePatcher.

Local Open Scope string_scope.

(** A getter that hands out a (patch, file name) pair has opened the slide
    of the element it was given, the patch is the one the library drew from
    that slide, and the file name is the slide's base name. *)
Lemma getter_patch (g : PatchGenerator.t) (slide_file : slide_entry)
    (w w1 : World) (r : res PatchGenerator.result) (img : Image) (name : string) :
  (if PatchGenerator.random_tissue_patch g
   then PatchGenerator._get_random_tissue_patch g slide_file w
   else PatchGenerator._get_random_patch g slide_file w) = (r, w1) ->
  r ≫= unpack_result = Ok (img, name) ->
  exists wsi_file : string,
    wsi_file_of (PatchGenerator.random_tissue_patch g) slide_file = Some wsi_file
    /\ name = os_path.basename wsi_file
    /\ w1 = PatchGenerator.open_slide wsi_file w
    /\ (if PatchGenerator.random_tissue_patch g
        then read_random_tissue_patch (tick w) wsi_file
               (PatchGenerator.slide_level g) (PatchGenerator.patch_size g)
             = TissuePatch img
        else exists (xml_file : string) (annotation : Annotation),
               xml_file_of slide_file = Some xml_file
               /\ read_random_patch (tick w) wsi_file xml_file
                    (PatchGenerator.slide_level g) (PatchGenerator.patch_size g)
                  = AnnotatedPatch img annotation).
Proof.
  destruct (PatchGenerator.random_tissue_patch g).
  - unfold PatchGenerator._get_random_tissue_patch.
    destruct slide_file as [p|wsi_file xml_file];
      destruct (read_random_tissue_patch _ _ _ _) as [e| |patch] eqn:Hread;
      intros [= <- <-] Hr; simpl in Hr; try discriminate;
      injection Hr as <- <-; eexists; repeat split; exact Hread.
  - unfold PatchGenerator._get_random_patch.
    destruct slide_file as [[|a [|b [|c p]]]|wsi_file xml_file]; simpl;
      try (intros [= <- <-] Hr; discriminate);
      destruct (read_random_patch _ _ _ _ _) as [e| |patch annotation] eqn:Hread;
      try destruct (PatchGenerator.return_annotation g);
      intros [= <- <-] Hr; simpl in Hr; try discriminate;
      injection Hr as <- <-; eexists; repeat split;
      eexists _, annotation; (split; [reflexivity|exact Hread]).
Qed.

(** X2.  A draw of [run] that succeeds opens the slide of the element it was
    given, once, and saves one image: the patch that the library drew from
    that slide, under the path that [_compose_path] makes from the slide's
    base name. *)
Lemma draw_and_save_path (slide_file : slide_entry) (self self' : t)
    (w w' : World) :
  draw_and_save slide_file self w = (Ok tt, self', w') ->
  exists (wsi_file : string) (img : Image),
    wsi_file_of (PatchGenerator.random_tissue_patch (patch_gen self)) slide_file
    = Some wsi_file
    /\ (if PatchGenerator.random_tissue_patch (patch_gen self)
        then read_random_tissue_patch (tick w) wsi_file
               (PatchGenerator.slide_level (patch_gen self))
               (PatchGenerator.patch_size (patch_gen self))
             = TissuePatch img
        else exists (xml_file : string) (annotation : Annotation),
               xml_file_of slide_file = Some xml_file
               /\ read_random_patch (tick w) wsi_file xml_file
                    (PatchGenerator.slide_level (patch_gen self))
                    (PatchGenerator.patch_size (patch_gen self))
                  = AnnotatedPatch img annotation)
    /\ opened w' = (opened w ++ [wsi_file])%list
    /\ filename self' = Some (os_path.basename wsi_file)
    /\ patch self' = Some img
    /\ target_dir self' = target_dir self
    /\ saved w'
       = (saved w
          ++ [(os_path.join (target_dir self)
                 (fst (os_path.splitext
                         (fst (os_path.splitext (os_path.basename wsi_file))))
                  ++ "_" ++ os_path.str_to 5 (uuid4_hex (S (tick w)))
                  ++ "." ++ lower (file_format self)), img)])%list.
Proof.
  unfold draw_and_save.
  destruct (if PatchGenerator.random_tissue_patch (patch_gen self) then _ else _)
    as [r1 w1] eqn:Hget.
  destruct (r1 ≫= unpack_result) as [[p name]|e] eqn:Hr; [|discriminate].
  destruct (getter_patch _ _ _ _ _ _ _ Hget Hr) as (wsi_file & Hwsi & -> & -> & Hdraw).
  unfold compose_and_save, _compose_path, _save. simpl.
  destruct (image_save _ _ _); intros [= <- <-].
  exists wsi_file, p. simpl. rewrite append_assoc. repeat split; assumption.
Qed.













End PatcherSources.

(** One draw on a slide kept in a directory. *)
Lemma draw_and_save_path_witness :
  let self := fst (OfflinePatcher.__init__ [SlidePath "slides/good.a1.svs"]
                     "patches" (299, 299) 0 true demo_world) in
  let w := snd (OfflinePatcher.__init__ [SlidePath "slides/good.a1.svs"]
                  "patches" (299, 299) 0 true demo_world) in
  let out := OfflinePatcher.draw_and_save (SlidePath "slides/good.a1.svs") self w in
  exists (wsi_file : string) (img : @Image demo_environment),
    wsi_file_of true (SlidePath "slides/good.a1.svs") = Some wsi_file
    /\ @read_random_tissue_patch demo_environment (tick w) wsi_file 0 (299, 299)
       = TissuePatch img
    /\ opened (snd out) = (opened w ++ [wsi_file])%list
    /\ OfflinePatcher.filename (snd (fst out)) = Some (os_path.basename wsi_file)
    /\ OfflinePatcher.patch (snd (fst out)) = Some img
    /\ OfflinePatcher.target_dir (snd (fst out)) = OfflinePatcher.target_dir self
    /\ saved (snd out)
       = (saved w
          ++ [(os_path.join (OfflinePatcher.target_dir self)
                 (String.append
                    (fst (os_path.splitext
                            (fst (os_path.splitext (os_path.basename wsi_file)))))
                    (String.append "_"
                       (String.append
                          (os_path.str_to 5 (@uuid4_hex demo_environment (S (tick w))))
                          (String.append "."
                             (lower (OfflinePatcher.file_format self)))))),
               img)])%list.
Proof.
  intros self w out.
  apply (@draw_and_save_path demo_environment (SlidePath "slides/good.a1.svs")
           self (snd (fst out)) w (snd out)).
  reflexivity.
Defined.


(** ** [compare_tsv_tables] and [create_difference_summary] *)

Section Tables.
Import clinical_compare_tables.

Local Open Scope string_scope.

Lemma values_are_equivalent_ok (a b : string) :
  exists v, values_are_equivalent a b = Ok v.
Proof. rewrite values_are_equivalent_eq. eauto. Qed.

Lemma values_are_equivalent_same (a : string) :
  values_are_equivalent a a = Ok true.
Proof. unfold values_are_equivalent. rewrite String.eqb_refl. reflexivity. Qed.

Lemma values_are_equivalent_swap (a b : string) :
  values_are_equivalent a b = values_are_equivalent b a.
Proof.
  rewrite !values_are_equivalent_eq, (numeric_comparison_sym a b).
  rewrite (orb_comm (contains (lower a) (lower b))). reflexivity.
Qed.

(** What the loop over the columns collects, when it raises nothing: every
    compared column is present in both rows, and the list holds exactly the
    columns whose two values are not equivalent. *)
Lemma row_differences_ok (cols : list string) (row1 row2 : gmap string cell)
    (l : list col_diff) :
  row_differences cols row1 row2 = Ok l ->
  (forall col, col ∈ cols -> is_Some (row1 !! col) /\ is_Some (row2 !! col))
  /\ (forall cd, cd ∈ l <->
        exists c1 c2,
          column cd ∈ cols
          /\ row1 !! column cd = Some c1 /\ row2 !! column cd = Some c2
          /\ table1_value cd = cell_value c1
          /\ table2_value cd = cell_value c2
          /\ values_are_equivalent (cell_value c1) (cell_value c2) = Ok false).
Proof.
  revert l. induction cols as [|col cols IH]; intros l; simpl.
  { intros [= <-]. split; [intros col Hc; inversion Hc|].
    intros cd. split; [intros Hc; inversion Hc|].
    intros (c1 & c2 & Hc & _). inversion Hc. }
  destruct (row1 !! col) as [c1|] eqn:H1; [|discriminate].
  destruct (row2 !! col) as [c2|] eqn:H2; [|discriminate].
  destruct (values_are_equivalent_ok (cell_value c1) (cell_value c2)) as [v Hv].
  rewrite Hv. simpl.
  destruct (row_differences cols row1 row2) as [rest|e]; [|discriminate].
  simpl. intros [= <-].
  destruct (IH rest eq_refl) as [Hpresent Hrest]. split.
  - intros c Hc. apply elem_of_cons in Hc as [-> | Hc]; [|auto].
    rewrite H1, H2. split; eauto.
  - intros cd. destruct v; simpl.
    + rewrite Hrest. split.
      * intros (d1 & d2 & Hc & Hrest'). exists d1, d2.
        split; [right; exact Hc|exact Hrest'].
      * intros (d1 & d2 & Hc & Hd1 & Hd2 & Ht1 & Ht2 & Hne).
        exists d1, d2. repeat split; try assumption.
        apply elem_of_cons in Hc as [Heq | Hc]; [|exact Hc].
        rewrite Heq in Hd1, Hd2. congruence.
    + rewrite elem_of_cons, Hrest. split.
      * intros [-> | (d1 & d2 & Hc & Hrest')].
        -- exists c1, c2. simpl. repeat split; try assumption. left.
        -- exists d1, d2. split; [right; exact Hc|exact Hrest'].
      * intros (d1 & d2 & Hc & Hd1 & Hd2 & Ht1 & Ht2 & Hne).
        apply elem_of_cons in Hc as [Heq | Hc].
        -- left. destruct cd as [cn v1 v2]. simpl in *. subst cn.
           rewrite H1 in Hd1. rewrite H2 in Hd2.
           injection Hd1 as <-. injection Hd2 as <-. congruence.
        -- right. exists d1, d2. repeat split; assumption.
Qed.

Lemma row_differences_total (cols : list string) (row1 row2 : gmap string cell) :
  (forall col, col ∈ cols -> is_Some (row1 !! col) /\ is_Some (row2 !! col)) ->
  exists l, row_differences cols row1 row2 = Ok l.
Proof.
  induction cols as [|col cols IH]; intros Hpresent; simpl; [eauto|].
  destruct (Hpresent col) as [[c1 ->] [c2 ->]]; [left|].
  destruct (values_are_equivalent_ok (cell_value c1) (cell_value c2)) as [v ->].
  destruct IH as [rest ->]; [intros c Hc; apply Hpresent; right; exact Hc|].
  simpl. eauto.
Qed.

(** The list is empty exactly when all compared values are equivalent. *)
Lemma row_differences_nil (cols : list string) (row1 row2 : gmap string cell)
    (l : list col_diff) :
  row_differences cols row1 row2 = Ok l ->
  (l = [] <->
   forall col c1 c2, col ∈ cols -> row1 !! col = Some c1 -> row2 !! col = Some c2 ->
     values_are_equivalent (cell_value c1) (cell_value c2) = Ok true).
Proof.
  intros Hok. destruct (row_differences_ok _ _ _ _ Hok) as [_ Hl]. split.
  - intros -> col c1 c2 Hc H1 H2.
    destruct (values_are_equivalent_ok (cell_value c1) (cell_value c2)) as [[|] Hv];
      [exact Hv|].
    exfalso.
    assert (Hin : {| column := col; table1_value := cell_value c1;
                     table2_value := cell_value c2 |} ∈ ([] : list col_diff)).
    { apply Hl. exists c1, c2. simpl. auto 10. }
    inversion Hin.
  - intros Hall. destruct l as [|cd l]; [reflexivity|]. exfalso.
    destruct (proj1 (Hl cd)) as (c1 & c2 & Hc & H1 & H2 & _ & _ & Hne); [left|].
    rewrite (Hall _ _ _ Hc H1 H2) in Hne. discriminate.
Qed.

Lemma elem_of_columns_to_compare (col : string) (columns1 columns2 : list string) :
  col ∈ columns_to_compare columns1 columns2
  <-> col ∈ columns1 /\ col ∈ columns2 /\ col <> "group".
Proof.
  unfold columns_to_compare. rewrite list_elem_of_filter. tauto.
Qed.

Lemma cell_value_fill (c : cell) : cell_value (fill_cell c) = cell_value c.
Proof. destruct c; reflexivity. Qed.

Lemma rows_fillna (df : frame) (id : string) :
  rows (fillna df) !! id
  = (fun row : gmap string cell => fill_cell <$> row) <$> rows df !! id.
Proof. unfold fillna. simpl. apply lookup_fmap. Qed.

Lemma dom_fillna (df : frame) : dom (rows (fillna df)) = dom (rows df).
Proof. unfold fillna. simpl. apply dom_fmap_L. Qed.

(** The loop over the common ids, when it raises nothing: every id is
    counted once, and a row is listed exactly when its list of differences
    is not empty. *)
Lemma compare_rows_ok (ids : list string) (df1 df2 : frame)
    (found : list row_diff) (k : nat) :
  compare_rows ids df1 df2 = Ok (found, k) ->
  (length found + k = length ids)%nat
  /\ Forall (fun rd =>
       submitter_id rd ∈ ids
       /\ row_diffs rd <> []
       /\ exists row1 row2,
            rows df1 !! submitter_id rd = Some row1
            /\ rows df2 !! submitter_id rd = Some row2
            /\ row_differences (columns_to_compare (columns df1) (columns df2))
                 row1 row2 = Ok (row_diffs rd)) found.
Proof.
  revert found k. induction ids as [|id ids IH]; intros found k; simpl.
  { intros [= <- <-]. split; [reflexivity|constructor]. }
  destruct (rows df1 !! id) as [row1|] eqn:H1; [|discriminate].
  destruct (rows df2 !! id) as [row2|] eqn:H2; [|discriminate].
  destruct (row_differences _ row1 row2) as [l|e] eqn:Hl; [|discriminate].
  simpl. destruct (compare_rows ids df1 df2) as [[found' k']|e]; [|discriminate].
  destruct (IH found' k' eq_refl) as [Hlen Hall].
  assert (Hall' : Forall (fun rd =>
       submitter_id rd ∈ id :: ids
       /\ row_diffs rd <> []
       /\ exists row1 row2,
            rows df1 !! submitter_id rd = Some row1
            /\ rows df2 !! submitter_id rd = Some row2
            /\ row_differences (columns_to_compare (columns df1) (columns df2))
                 row1 row2 = Ok (row_diffs rd)) found').
  { eapply Forall_impl; [exact Hall|]. intros rd (Hin & Hrest). split; [right; exact Hin|exact Hrest]. }
  simpl. destruct l as [|cd l]; intros [= <- <-]; simpl.
  - split; [lia|exact Hall'].
  - split; [lia|]. constructor; [|exact Hall']. simpl.
    split; [left|]. split; [discriminate|]. eauto.
Qed.

(** X13.  When the comparison raises nothing, its counts add up: the common
    ids are the ids present in both tables, each of them is counted once,
    as identical or as different, and every id of a table is either common
    or listed as present in that table only. *)
Theorem compare_counts (df1 df2 : frame) (r : results) :
  compare_tsv_tables df1 df2 = Ok r ->
  total_common r = size (dom (rows df1) ∩ dom (rows df2))
  /\ (identical_rows r + length (differences r) = total_common r)%nat
  /\ (total_common r + length (only_in_table1 r) = size (dom (rows df1)))%nat
  /\ (total_common r + length (only_in_table2 r) = size (dom (rows df2)))%nat.
Proof.
  unfold compare_tsv_tables. rewrite !dom_fillna.
  destruct (compare_rows _ _ _) as [[found k]|e] eqn:Hrows; [|discriminate].
  simpl. intros [= <-]. simpl.
  destruct (compare_rows_ok _ _ _ _ _ Hrows) as [Hlen _].
  assert (Hs1 : (size (dom (rows df1) ∩ dom (rows df2))
                 + size (dom (rows df1) ∖ dom (rows df2))
                 = size (dom (rows df1)))%nat).
  { rewrite <- size_union.
    - f_equal. apply set_eq. intros x.
      rewrite elem_of_union, elem_of_intersection, elem_of_difference.
      destruct (decide (x ∈ dom (rows df2))); tauto.
    - intros x. rewrite elem_of_intersection, elem_of_difference. tauto. }
  assert (Hs2 : (size (dom (rows df1) ∩ dom (rows df2))
                 + size (dom (rows df2) ∖ dom (rows df1))
                 = size (dom (rows df2)))%nat).
  { rewrite <- size_union.
    - f_equal. apply set_eq. intros x.
      rewrite elem_of_union, elem_of_intersection, elem_of_difference.
      destruct (decide (x ∈ dom (rows df1))); tauto.
    - intros x. rewrite elem_of_intersection, elem_of_difference. tauto. }
  unfold size, set_size in *. simpl in *.
  repeat split; lia.
Qed.

(** X14.  A table compared with itself shows no difference: every row is
    identical and no id is peculiar to one side.  (Each row has to hold a
    cell for every compared column.) *)
Theorem compare_with_itself (df : frame) :
  (forall id row col,
      rows df !! id = Some row -> col ∈ columns df -> col <> "group" ->
      is_Some (row !! col)) ->
  compare_tsv_tables df df
  = Ok {| total_common := size (dom (rows df));
          only_in_table1 := [];
          only_in_table2 := [];
          differences := [];
          identical_rows := size (dom (rows df)) |}.
Proof.
  intros Hwf. unfold compare_tsv_tables. rewrite !dom_fillna.
  assert (Hrows : forall ids,
             (forall id, id ∈ ids -> id ∈ dom (rows df)) ->
             compare_rows ids (fillna df) (fillna df) = Ok ([], length ids)).
  { induction ids as [|id ids IH]; intros Hids; [reflexivity|].
    cbn [compare_rows]. rewrite rows_fillna.
    assert (Hid : id ∈ dom (rows df)) by (apply Hids; left).
    apply elem_of_dom in Hid as [row Hrow].
    rewrite Hrow. simpl.
    destruct (row_differences_total
                (columns_to_compare (columns df) (columns df))
                (fill_cell <$> row) (fill_cell <$> row)) as [l Hl].
    { intros col Hc. apply elem_of_columns_to_compare in Hc as (Hc & _ & Hg).
      rewrite lookup_fmap.
      destruct (Hwf _ _ _ Hrow Hc Hg) as [c ->]. split; eauto. }
    rewrite Hl. simpl.
    assert (l = []) as ->.
    { apply (row_differences_nil _ _ _ _ Hl). intros col c1 c2 _ H1 H2.
      rewrite H1 in H2. injection H2 as <-. apply values_are_equivalent_same. }
    rewrite IH by (intros x Hx; apply Hids; right; exact Hx). reflexivity. }
  assert (dom (rows df) ∩ dom (rows df) = dom (rows df)) as ->
    by (apply set_eq; intros x; rewrite elem_of_intersection; tauto).
  rewrite difference_diag_L.
  rewrite Hrows by (intros id Hid; apply elem_of_elements; exact Hid).
  simpl. rewrite elements_empty. reflexivity.
Qed.

(** X15.  Every difference the comparison reports is genuine: the row
    belongs to both tables, it carries at least one column, and each column
    it carries is a column of both tables other than ['group'] whose two
    values, taken from the two tables with a missing value read as the
    empty string, are not equivalent. *)
Theorem reported_differences_are_genuine (df1 df2 : frame) (r : results) :
  compare_tsv_tables df1 df2 = Ok r ->
  Forall (fun rd =>
    row_diffs rd <> []
    /\ exists row1 row2,
         rows df1 !! submitter_id rd = Some row1
         /\ rows df2 !! submitter_id rd = Some row2
         /\ Forall (fun cd =>
              column cd ∈ columns df1 /\ column cd ∈ columns df2
              /\ column cd <> "group"
              /\ (exists c1 c2,
                     row1 !! column cd = Some c1 /\ row2 !! column cd = Some c2
                     /\ table1_value cd = cell_value c1
                     /\ table2_value cd = cell_value c2)
              /\ values_are_equivalent (table1_value cd) (table2_value cd)
                 = Ok false) (row_diffs rd))
    (differences r).
Proof.
  unfold compare_tsv_tables.
  destruct (compare_rows _ _ _) as [[found k]|e] eqn:Hrows; [|discriminate].
  simpl. intros [= <-]. simpl.
  destruct (compare_rows_ok _ _ _ _ _ Hrows) as [_ Hall].
  eapply Forall_impl; [exact Hall|]. clear Hall.
  intros rd (_ & Hne & row1 & row2 & H1 & H2 & Hdiff).
  split; [exact Hne|].
  rewrite rows_fillna in H1, H2.
  destruct (rows df1 !! submitter_id rd) as [row1'|]; [|discriminate].
  destruct (rows df2 !! submitter_id rd) as [row2'|]; [|discriminate].
  simpl in H1, H2. injection H1 as <-. injection H2 as <-.
  exists row1', row2'. repeat split.
  destruct (row_differences_ok _ _ _ _ Hdiff) as [_ Hcd].
  apply Forall_forall. intros cd Hin.
  destruct (proj1 (Hcd cd) Hin) as (c1 & c2 & Hc & Hl1 & Hl2 & Ht1 & Ht2 & Hv).
  apply elem_of_columns_to_compare in Hc as (Hc1 & Hc2 & Hg).
  rewrite lookup_fmap in Hl1, Hl2.
  destruct (row1' !! column cd) as [d1|]; [|discriminate].
  destruct (row2' !! column cd) as [d2|]; [|discriminate].
  simpl in Hl1, Hl2. injection Hl1 as <-. injection Hl2 as <-.
  rewrite cell_value_fill in Ht1, Ht2.
  repeat split; try assumption.
  - exists d1, d2. auto.
  - rewrite Ht1, Ht2. rewrite !cell_value_fill in Hv. exact Hv.
Qed.

(** Swapping the tables swaps the roles in the loop over the common ids. *)
Lemma compare_rows_swap (ids : list string) (df1 df2 : frame)
    (found12 : list row_diff) (k : nat) :
  compare_rows ids df1 df2 = Ok (found12, k) ->
  exists found21,
    compare_rows ids df2 df1 = Ok (found21, k)
    /\ map submitter_id found21 = map submitter_id found12.
Proof.
  revert found12 k. induction ids as [|id ids IH]; intros found12 k; simpl.
  { intros [= <- <-]. exists []. auto. }
  destruct (rows df1 !! id) as [row1|] eqn:H1; [|discriminate].
  destruct (rows df2 !! id) as [row2|] eqn:H2; [|discriminate].
  destruct (row_differences _ row1 row2) as [l12|e] eqn:Hl12; [|discriminate].
  simpl. destruct (compare_rows ids df1 df2) as [[f12 k12]|e]; [|discriminate].
  destruct (IH f12 k12 eq_refl) as (f21 & -> & Hids).
  destruct (row_differences_ok _ _ _ _ Hl12) as [Hpresent _].
  destruct (row_differences_total
              (columns_to_compare (columns df2) (columns df1)) row2 row1)
    as [l21 Hl21].
  { intros col Hc. apply elem_of_columns_to_compare in Hc as (Hc2 & Hc1 & Hg).
    destruct (Hpresent col) as [Hp1 Hp2]; [|auto].
    apply elem_of_columns_to_compare. auto. }
  rewrite Hl21. simpl.
  assert (Hnil : l12 = [] <-> l21 = []).
  { rewrite (row_differences_nil _ _ _ _ Hl12), (row_differences_nil _ _ _ _ Hl21).
    split; intros Hall col c c' Hc Hr Hr';
      rewrite values_are_equivalent_swap; apply (Hall col); try assumption;
      apply elem_of_columns_to_compare;
      apply elem_of_columns_to_compare in Hc; tauto. }
  destruct l12 as [|cd12 l12], l21 as [|cd21 l21]; simpl; intros [= <- <-].
  - eexists. split; [reflexivity|exact Hids].
  - destruct Hnil as [Hnil _]. discriminate (Hnil eq_refl).
  - destruct Hnil as [_ Hnil]. discriminate (Hnil eq_refl).
  - eexists. split; [reflexivity|]. simpl. rewrite Hids. reflexivity.
Qed.

(** X16.  The comparison is symmetric in its verdicts: with the two tables
    swapped it raises nothing either, counts the same rows as identical and
    lists the same rows as different, while the two lists of ids peculiar to
    one table change places.  (Lists that come from a Python set are compared
    up to order.) *)
Theorem compare_is_symmetric (df1 df2 : frame) (r12 : results) :
  compare_tsv_tables df1 df2 = Ok r12 ->
  exists r21,
    compare_tsv_tables df2 df1 = Ok r21
    /\ total_common r21 = total_common r12
    /\ identical_rows r21 = identical_rows r12
    /\ map submitter_id (differences r21) ≡ₚ map submitter_id (differences r12)
    /\ only_in_table1 r21 ≡ₚ only_in_table2 r12
    /\ only_in_table2 r21 ≡ₚ only_in_table1 r12.
Proof.
  intros Hcmp. unfold compare_tsv_tables in *.
  assert (dom (rows (fillna df2)) ∩ dom (rows (fillna df1))
          = dom (rows (fillna df1)) ∩ dom (rows (fillna df2))) as ->
    by (apply set_eq; intros x; rewrite !elem_of_intersection; tauto).
  destruct (compare_rows _ (fillna df1) (fillna df2)) as [[found k]|e] eqn:Hrows;
    [|discriminate Hcmp].
  destruct (compare_rows_swap _ _ _ _ _ Hrows) as (found21 & Hswap & Hids).
  rewrite Hswap. injection Hcmp as <-.
  eexists. split; [reflexivity|]. simpl. rewrite Hids. auto.
Qed.

Lemma count_column_lookup (m : gmap string nat) (cd : col_diff) (c : string) :
  count_column m cd !! c
  = if decide (c = column cd) then Some (S (default 0%nat (m !! c))) else m !! c.
Proof.
  unfold count_column.
  destruct (decide (c = column cd)) as [-> | Hne].
  - rewrite lookup_insert_eq. destruct (decide (m !! column cd = None)) as [Hn|Hn].
    + rewrite lookup_insert_eq, Hn. reflexivity.
    + reflexivity.
  - rewrite lookup_insert_ne by congruence.
    destruct (decide (m !! column cd = None)); [|reflexivity].
    rewrite lookup_insert_ne by congruence. reflexivity.
Qed.

Lemma foldl_count_column_lookup (l : list col_diff) (m : gmap string nat)
    (c : string) :
  foldl count_column m l !! c
  = match length (filter (fun cd => column cd = c) l) with
    | O => m !! c
    | S k => Some (default 0%nat (m !! c) + S k)%nat
    end.
Proof.
  revert m. induction l as [|cd l IH]; intros m; [reflexivity|].
  simpl. rewrite IH, count_column_lookup.
  rewrite filter_cons. destruct (decide (column cd = c)) as [<- | Hne].
  - rewrite decide_True by reflexivity. simpl.
    destruct (length (filter _ l)); f_equal; lia.
  - rewrite decide_False by congruence. reflexivity.
Qed.

Lemma summary_as_one_fold (rds : list row_diff) (m : gmap string nat) :
  foldl (fun acc rd => foldl count_column acc (row_diffs rd)) m rds
  = foldl count_column m (concat (map row_diffs rds)).
Proof.
  revert m. induction rds as [|rd rds IH]; intros m; [reflexivity|].
  simpl. rewrite foldl_app. apply IH.
Qed.

(** X17.  The summary maps a column to the number of reported differences
    in that column, and holds no entry for a column without any. *)
Theorem summary_counts_per_column (r : results) (c : string) :
  create_difference_summary r !! c
  = match length (filter (fun cd => column cd = c)
                    (concat (map row_diffs (differences r)))) with
    | O => None
    | S k => Some (S k)
    end.
Proof.
  unfold create_difference_summary.
  rewrite summary_as_one_fold, foldl_count_column_lookup, lookup_empty.
  reflexivity.
Qed.

Lemma count_column_insert (m : gmap string nat) (cd : col_diff) :
  count_column m cd
  = <[ column cd := S (default 0%nat (m !! column cd)) ]> m.
Proof.
  unfold count_column. destruct (decide (m !! column cd = None)) as [Hn|Hn].
  - rewrite lookup_insert_eq, Hn, insert_insert_eq. reflexivity.
  - reflexivity.
Qed.

Lemma total_count_column (m : gmap string nat) (cd : col_diff) :
  map_fold (fun _ v acc => v + acc)%nat 0%nat (count_column m cd)
  = S (map_fold (fun _ v acc => v + acc)%nat 0%nat m).
Proof.
  rewrite count_column_insert.
  destruct (m !! column cd) as [v|] eqn:Hv; simpl.
  - rewrite <- insert_delete_eq.
    rewrite map_fold_insert_L; [|intros; lia|apply lookup_delete_eq].
    rewrite (map_fold_delete_L _ _ (column cd) v m); [lia|intros; lia|exact Hv].
  - rewrite map_fold_insert_L; [reflexivity|intros; lia|exact Hv].
Qed.

(** X18.  The counts of the summary add up to the number of differences
    reported, all rows and columns together. *)
Theorem summary_total (r : results) :
  map_fold (fun _ v acc => v + acc)%nat 0%nat (create_difference_summary r)
  = length (concat (map row_diffs (differences r))).
Proof.
  unfold create_difference_summary. rewrite summary_as_one_fold.
  generalize (concat (map row_diffs (differences r))). intros l.
  rewrite <- (rev_involutive l). generalize (rev l). clear l. intros l.
  induction l as [|cd l IH]; [reflexivity|].
  simpl. rewrite foldl_app. simpl. rewrite total_count_column, IH.
  rewrite !length_app. simpl. lia.
Qed.

End Tables.

Lemma demo_comparison :
  clinical_compare_tables.compare_tsv_tables demo_table1 demo_table2
  = Ok demo_results.
Proof. vm_compute. reflexivity. Qed.

Lemma compare_counts_witness :
  clinical_compare_tables.total_common demo_results
  = size (dom (clinical_compare_tables.rows demo_table1)
          ∩ dom (clinical_compare_tables.rows demo_table2))
  /\ (clinical_compare_tables.identical_rows demo_results
      + length (clinical_compare_tables.differences demo_results)
      = clinical_compare_tables.total_common demo_results)%nat
  /\ (clinical_compare_tables.total_common demo_results
      + length (clinical_compare_tables.only_in_table1 demo_results)
      = size (dom (clinical_compare_tables.rows demo_table1)))%nat
  /\ (clinical_compare_tables.total_common demo_results
      + length (clinical_compare_tables.only_in_table2 demo_results)
      = size (dom (clinical_compare_tables.rows demo_table2)))%nat.
Proof.
  apply (compare_counts demo_table1 demo_table2 demo_results).
  vm_compute. reflexivity.
Defined.

Lemma compare_with_itself_witness :
  clinical_compare_tables.compare_tsv_tables demo_table1 demo_table1
  = Ok {| clinical_compare_tables.total_common :=
            size (dom (clinical_compare_tables.rows demo_table1));
          clinical_compare_tables.only_in_table1 := [];
          clinical_compare_tables.only_in_table2 := [];
          clinical_compare_tables.differences := [];
          clinical_compare_tables.identical_rows :=
            size (dom (clinical_compare_tables.rows demo_table1)) |}.
Proof.
  apply (compare_with_itself demo_table1).
  intros id row col Hrow Hcol _.
  assert (Hall : map_Forall (fun _ (row : gmap string cell) =>
                   Forall (fun col => is_Some (row !! col))
                     (clinical_compare_tables.columns demo_table1))
                   (clinical_compare_tables.rows demo_table1)).
  { apply (bool_decide_unpack _). vm_compute. exact I. }
  specialize (Hall id row Hrow). simpl in Hall.
  rewrite Forall_forall in Hall. apply Hall. exact Hcol.
Defined.

Lemma reported_differences_are_genuine_witness :
  let df1 := demo_table1 in
  let df2 := demo_table2 in
  Forall (fun rd =>
    clinical_compare_tables.row_diffs rd <> []
    /\ exists row1 row2,
         clinical_compare_tables.rows df1 !! clinical_compare_tables.submitter_id rd
         = Some row1
         /\ clinical_compare_tables.rows df2 !! clinical_compare_tables.submitter_id rd
            = Some row2
         /\ Forall (fun cd =>
              column cd ∈ clinical_compare_tables.columns df1
              /\ column cd ∈ clinical_compare_tables.columns df2
              /\ column cd <> "group"%string
              /\ (exists c1 c2,
                     row1 !! column cd = Some c1 /\ row2 !! column cd = Some c2
                     /\ table1_value cd = cell_value c1
                     /\ table2_value cd = cell_value c2)
              /\ values_are_equivalent (table1_value cd) (table2_value cd)
                 = Ok false) (clinical_compare_tables.row_diffs rd))
    (clinical_compare_tables.differences demo_results).
Proof.
  intros df1 df2.
  apply (reported_differences_are_genuine demo_table1 demo_table2 demo_results).
  vm_compute. reflexivity.
Defined.

Lemma compare_is_symmetric_witness :
  exists r21,
    clinical_compare_tables.compare_tsv_tables demo_table2 demo_table1 = Ok r21
    /\ clinical_compare_tables.total_common r21
       = clinical_compare_tables.total_common demo_results
    /\ clinical_compare_tables.identical_rows r21
       = clinical_compare_tables.identical_rows demo_results
    /\ map clinical_compare_tables.submitter_id
         (clinical_compare_tables.differences r21)
       ≡ₚ map clinical_compare_tables.submitter_id
            (clinical_compare_tables.differences demo_results)
    /\ clinical_compare_tables.only_in_table1 r21
       ≡ₚ clinical_compare_tables.only_in_table2 demo_results
    /\ clinical_compare_tables.only_in_table2 r21
       ≡ₚ clinical_compare_tables.only_in_table1 demo_results.
Proof.
  apply (compare_is_symmetric demo_table1 demo_table2 demo_results).
  vm_compute. reflexivity.
Defined.

(** ** sub_models.py *)

Section SubModels.
Import sub_models.

(** X19.  [_pick_n_neurons] answers with one of its seven candidate widths:
    the smallest that is at least [n_features] when there is one, and 8192,
    which is then too small, when [n_features] exceeds them all. *)
Theorem pick_n_neurons_fits (n_features : Z) :
  _pick_n_neurons n_features ∈ candidates
  /\ (n_features <= 8192 ->
      n_features <= _pick_n_neurons n_features
      /\ forall size, size ∈ candidates -> n_features <= size ->
                      _pick_n_neurons n_features <= size)
  /\ (8192 < n_features -> _pick_n_neurons n_features = 8192).
Proof.
  unfold _pick_n_neurons, candidates. simpl.
  repeat match goal with
         | |- context [?a <=? ?b] => destruct (Z.leb_spec a b)
         end; simpl;
    (split; [repeat first [apply list_elem_of_here | apply list_elem_of_further]|]);
    (split; [intros Hle; split; [lia|]|intros Hgt; lia]);
    intros size Hsize Hfit;
    repeat (apply elem_of_cons in Hsize as [-> | Hsize]; [lia|]);
    inversion Hsize.
Qed.

Lemma linears_app (l1 l2 : list layer) :
  linears (l1 ++ l2) = linears l1 ++ linears l2.
Proof.
  induction l1 as [|[| a b | | k] l1 IH]; simpl; congruence.
Qed.

Lemma linears_make_layer (a b : Z) (dropout batchnorm : bool) :
  linears (_make_layer a b dropout batchnorm) = [(a, b)].
Proof. destruct dropout, batchnorm; reflexivity. Qed.

Lemma chained_app (a b c : Z) (l1 l2 : list (Z * Z)) :
  chained a b l1 -> chained b c l2 -> chained a c (l1 ++ l2).
Proof.
  revert a. induction l1 as [|[x y] l1 IH]; intros a; simpl.
  - intros ->. auto.
  - intros [-> H1] H2. split; [reflexivity|]. apply IH; assumption.
Qed.

Lemma hidden_layers_chain (k : nat) (hidden out_features : Z) (dropout : bool) :
  length (linears (fst (hidden_layers k hidden out_features dropout))) = k
  /\ chained hidden (snd (hidden_layers k hidden out_features dropout))
       (linears (fst (hidden_layers k hidden out_features dropout))).
Proof.
  revert hidden. induction k as [|k IH]; intros hidden; simpl; [auto|].
  destruct (hidden_layers k _ out_features dropout) as [layers last] eqn:Hh.
  specialize (IH (Z.max (_pick_n_neurons hidden) out_features)).
  rewrite Hh in IH. simpl in *. destruct IH as [Hlen Hch].
  rewrite linears_app, linears_make_layer. simpl. split; [lia|auto].
Qed.

(** X20.  [FC.__init__] raises [ValueError] when [n_layers] is not positive.
    Otherwise (for positive widths, which the layer constructors accept) the
    plan it builds has [n_layers] linear layers whose widths fit together:
    the first takes [in_features], each next one takes what the one before
    gives, and the last gives [out_features]. *)
Theorem FC_plan_is_chained (in_features out_features n_layers : Z)
    (dropout batchnorm : bool) (scaling_factor : Z) :
  (n_layers < 1 ->
   FC_init in_features out_features n_layers dropout batchnorm scaling_factor
   = Raise ValueError)
  /\ (1 <= n_layers ->
      0 < in_features -> 0 < out_features -> 0 < scaling_factor ->
      exists layers,
        FC_init in_features out_features n_layers dropout batchnorm scaling_factor
        = Ok layers
        /\ length (linears layers) = Z.to_nat n_layers
        /\ chained in_features out_features (linears layers)).
Proof.
  unfold FC_init. split.
  - intros Hn.
    destruct (Z.eqb_spec n_layers 1); [lia|].
    destruct (Z.eqb_spec n_layers 2); [lia|].
    destruct (Z.ltb_spec 2 n_layers); [lia|reflexivity].
  - intros Hn _ _ _.
    destruct (Z.eqb_spec n_layers 1) as [-> | H1].
    { eexists. split; [reflexivity|]. rewrite linears_make_layer. simpl. auto. }
    destruct (Z.eqb_spec n_layers 2) as [-> | H2].
    { eexists. split; [reflexivity|].
      rewrite linears_app, !linears_make_layer. simpl. auto. }
    destruct (Z.ltb_spec 2 n_layers); [|lia].
    destruct (hidden_layers_chain (Z.to_nat (n_layers - 2))
                (_pick_n_neurons in_features * scaling_factor)
                out_features dropout) as [Hlen Hch].
    destruct (hidden_layers _ _ out_features dropout) as [layers hidden'].
    simpl in *. eexists. split; [reflexivity|].
    rewrite !linears_app, !linears_make_layer, !length_app. simpl.
    split; [lia|]. split; [reflexivity|].
    eapply chained_app; [exact Hch|]. simpl. auto.
Qed.

Lemma set_requires_grad_lookup (params : list positive) (v : bool)
    (flags : gmap positive bool) (p : positive) :
  set_requires_grad params v flags !! p
  = if decide (p ∈ params) then Some v else flags !! p.
Proof.
  unfold set_requires_grad. revert flags.
  induction params as [|q params IH]; intros flags; cbn [foldl].
  { destruct (decide (p ∈ [])) as [Hin|_]; [inversion Hin|reflexivity]. }
  rewrite IH.
  destruct (decide (p ∈ params)) as [Hin|Hnin];
    destruct (decide (p ∈ q :: params)) as [Hin'|Hnin']; try reflexivity.
  - exfalso. apply Hnin'. right. exact Hin.
  - apply elem_of_cons in Hin' as [-> | Hin']; [|contradiction].
    apply lookup_insert_eq.
  - rewrite lookup_insert_ne; [reflexivity|].
    intros <-. apply Hnin'. left.
Qed.

Lemma unfreeze_from_true (name : string) (children : list (string * list positive))
    (flags : gmap positive bool) (p : positive) :
  unfreeze_from name true children flags !! p
  = if decide (p ∈ concat (map snd children)) then Some true else flags !! p.
Proof.
  revert flags. induction children as [|[nm params] children IH]; intros flags;
    cbn [unfreeze_from map concat snd].
  { destruct (decide (p ∈ [])) as [Hin|_]; [inversion Hin|reflexivity]. }
  assert (Hstep : unfreeze_from name true children
                    (set_requires_grad params true flags) !! p
                  = if decide (p ∈ params ++ concat (map snd children))
                    then Some true else flags !! p).
  { rewrite IH, set_requires_grad_lookup.
    destruct (decide (p ∈ concat (map snd children))) as [Hin|Hnin];
      destruct (decide (p ∈ params)) as [Hp|Hp];
      destruct (decide (p ∈ params ++ concat (map snd children))) as [Hx|Hx];
      try reflexivity; exfalso;
      try (apply Hx; apply elem_of_app; auto; fail).
    apply elem_of_app in Hx as [? | ?]; contradiction. }
  destruct (String.eqb nm name); exact Hstep.
Qed.

Lemma unfreeze_from_absent (name : string) (children : list (string * list positive))
    (flags : gmap positive bool) :
  name ∉ map fst children ->
  unfreeze_from name false children flags = flags.
Proof.
  revert flags. induction children as [|[nm params] children IH]; intros flags Hn;
    simpl; [reflexivity|].
  destruct (String.eqb_spec nm name) as [-> | Hne].
  - exfalso. apply Hn. left.
  - apply IH. intros Hin. apply Hn. right. exact Hin.
Qed.

Lemma unfreeze_from_app (name : string) (before rest : list (string * list positive))
    (flags : gmap positive bool) :
  name ∉ map fst before ->
  unfreeze_from name false (before ++ rest) flags
  = unfreeze_from name false rest flags.
Proof.
  revert flags. induction before as [|[nm params] before IH]; intros flags Hn;
    simpl; [reflexivity|].
  destruct (String.eqb_spec nm name) as [-> | Hne].
  - exfalso. apply Hn. left.
  - apply IH. intros Hin. apply Hn. right. exact Hin.
Qed.

(** X21.  After [freeze_layers(model, up_to_layer)] with the name of a child,
    a parameter of the model is trainable exactly when it lies in that child
    or in a child after it, even if an earlier child holds it too; the other
    parameters of the model are frozen, and flags outside the model are left
    alone. *)
Theorem freeze_layers_flags (model : module) (up_to_layer : string)
    (before after : list (string * list positive)) (params : list positive)
    (flags : gmap positive bool) (p : positive) :
  named_children model = before ++ (up_to_layer, params) :: after ->
  up_to_layer ∉ map fst before ->
  freeze_layers model (Some up_to_layer) flags !! p
  = if decide (p ∈ params ++ concat (map snd after)) then Some true
    else if decide (p ∈ parameters model) then Some false
    else flags !! p.
Proof.
  intros Hchildren Hfirst. unfold freeze_layers.
  rewrite Hchildren, (unfreeze_from_app _ _ _ _ Hfirst).
  cbn [unfreeze_from]. rewrite String.eqb_refl.
  rewrite unfreeze_from_true, !set_requires_grad_lookup.
  destruct (decide (p ∈ concat (map snd after))) as [Ha|Ha];
    destruct (decide (p ∈ params)) as [Hp|Hp];
    destruct (decide (p ∈ params ++ concat (map snd after))) as [Hx|Hx];
    try reflexivity; exfalso;
    try (apply Hx; apply elem_of_app; auto; fail).
  apply elem_of_app in Hx as [? | ?]; contradiction.
Qed.

(** X22.  When no child bears the name given, [freeze_layers] freezes every
    parameter of the model and reports nothing; with [up_to_layer=None] it
    changes no flag at all. *)
Theorem freeze_layers_unknown_name (model : module) (up_to_layer : string)
    (flags : gmap positive bool) (p : positive) :
  up_to_layer ∉ map fst (named_children model) ->
  freeze_layers model (Some up_to_layer) flags !! p
  = (if decide (p ∈ parameters model) then Some false else flags !! p)
  /\ freeze_layers model None flags = flags.
Proof.
  intros Habsent. split; [|reflexivity]. unfold freeze_layers.
  rewrite (unfreeze_from_absent _ _ _ Habsent). apply set_requires_grad_lookup.
Qed.

End SubModels.

Lemma pick_n_neurons_fits_witness :
  (300 <= sub_models._pick_n_neurons 300 /\ sub_models._pick_n_neurons 300 <= 512)
  /\ sub_models._pick_n_neurons 10000 = 8192.
Proof.
  split.
  - destruct (proj1 (proj2 (pick_n_neurons_fits 300)) ltac:(lia)) as [Hfit Hleast].
    split; [exact Hfit|]. apply Hleast; [|lia].
    unfold sub_models.candidates.
    repeat first [apply list_elem_of_here | apply list_elem_of_further].
  - apply (proj2 (proj2 (pick_n_neurons_fits 10000))). lia.
Defined.

(** The plan of [CnvNet]: five layers from 4000 features. *)
Lemma FC_plan_is_chained_witness :
  sub_models.FC_init 4000 512 0 true false 1 = Raise ValueError
  /\ exists layers,
       sub_models.FC_init 4000 512 5 true false 1 = Ok layers
       /\ length (sub_models.linears layers) = Z.to_nat 5
       /\ sub_models.chained 4000 512 (sub_models.linears layers).
Proof.
  split.
  - apply (proj1 (FC_plan_is_chained 4000 512 0 true false 1)). lia.
  - apply (proj2 (FC_plan_is_chained 4000 512 5 true false 1)); lia.
Defined.

(** A model with three children, the first two sharing parameter 2. *)
Lemma freeze_layers_flags_witness :
  sub_models.freeze_layers
    {| sub_models.own_parameters := [9%positive];
       sub_models.named_children :=
         [("layer1"%string, [1; 2]%positive); ("layer2"%string, [2; 3]%positive);
          ("layer3"%string, [4%positive])] |}
    (Some "layer2"%string) ∅ !! 2%positive
  = Some true.
Proof.
  apply (freeze_layers_flags
           {| sub_models.own_parameters := [9%positive];
              sub_models.named_children :=
                [("layer1"%string, [1; 2]%positive);
                 ("layer2"%string, [2; 3]%positive);
                 ("layer3"%string, [4%positive])] |}
           "layer2" [("layer1"%string, [1; 2]%positive)]
           [("layer3"%string, [4%positive])] [2; 3]%positive ∅ 2%positive).
  - reflexivity.
  - intros Hin. apply elem_of_cons in Hin as [Heq | Hin];
      [discriminate|inversion Hin].
Defined.

Lemma freeze_layers_unknown_name_witness :
  sub_models.freeze_layers
    {| sub_models.own_parameters := [9%positive];
       sub_models.named_children := [("layer1"%string, [1; 2]%positive)] |}
    (Some "layer3"%string) {[ 1%positive := true; 7%positive := true ]}
    !! 1%positive
  = Some false
  /\ sub_models.freeze_layers
       {| sub_models.own_parameters := [9%positive];
          sub_models.named_children := [("layer1"%string, [1; 2]%positive)] |}
       None {[ 1%positive := true; 7%positive := true ]}
     = {[ 1%positive := true; 7%positive := true ]}.
Proof.
  apply (freeze_layers_unknown_name
           {| sub_models.own_parameters := [9%positive];
              sub_models.named_children := [("layer1"%string, [1; 2]%positive)] |}
           "layer3" {[ 1%positive := true; 7%positive := true ]} 1%positive).
  intros Hin. apply elem_of_cons in Hin as [Heq | Hin];
    [discriminate|inversion Hin].
Defined.

Section Summary.
Import clinical_compare_tables.

Local Open Scope string_scope.

(** X23.  The summary of a comparison has entries only for columns that
    were compared: columns of both tables, and never ['group']. *)
Theorem summary_of_comparison_columns (df1 df2 : frame) (r : results)
    (c : string) :
  compare_tsv_tables df1 df2 = Ok r ->
  is_Some (create_difference_summary r !! c) ->
  c ∈ columns df1 /\ c ∈ columns df2 /\ c <> "group".
Proof.
  intros Hcmp Hsome. unfold create_difference_summary in Hsome.
  rewrite summary_as_one_fold, foldl_count_column_lookup, lookup_empty in Hsome.
  destruct (filter (fun cd => column cd = c)
              (concat (map row_diffs (differences r)))) as [|cd l] eqn:Hf.
  { simpl in Hsome. destruct Hsome as [? [=]]. }
  assert (Hin : cd ∈ filter (fun cd => column cd = c)
                      (concat (map row_diffs (differences r))))
    by (rewrite Hf; left).
  apply list_elem_of_filter in Hin as [<- Hin].
  apply list_elem_of_In, in_concat in Hin as (lcd & Hl & Hcd).
  apply in_map_iff in Hl as (rd & <- & Hrd).
  apply list_elem_of_In in Hcd. apply list_elem_of_In in Hrd.
  unfold compare_tsv_tables in Hcmp.
  destruct (compare_rows _ _ _) as [[found k]|e] eqn:Hrows; [|discriminate].
  injection Hcmp as <-. simpl in Hrd.
  destruct (compare_rows_ok _ _ _ _ _ Hrows) as [_ Hall].
  rewrite Forall_forall in Hall.
  destruct (Hall rd Hrd) as (_ & _ & row1 & row2 & _ & _ & Hdiff).
  destruct (row_differences_ok _ _ _ _ Hdiff) as [_ Hspec].
  destruct (proj1 (Hspec cd) Hcd) as (_ & _ & Hcol & _).
  apply elem_of_columns_to_compare in Hcol. exact Hcol.
Qed.

End Summary.

Lemma summary_of_comparison_columns_witness :
  "age"%string ∈ clinical_compare_tables.columns demo_table1
  /\ "age"%string ∈ clinical_compare_tables.columns demo_table2
  /\ "age"%string <> "group"%string.
Proof.
  apply (summary_of_comparison_columns demo_table1 demo_table2 demo_results).
  - vm_compute. reflexivity.
  - exists 1%nat. vm_compute. reflexivity.
Defined.
